(** * goduckdb: a database/sql driver over the DuckDB C API

    Shallow embedding of the driver's parameter interpolation
    ([conn.go]: [interpolateParams], [escapeValue]), of the typed binder and
    the prepared-statement life cycle ([stmt]: [start], [Exec], [Query],
    [Close]), of the result cursor ([duckdbRows]: [Next], [Close]) and of the
    connection entry points ([conn]: [Exec], [Query], [Prepare]).

    Go strings are byte sequences and are modelled as [list ascii]; Go's
    [int]/[int64] are [Z]; the native engine behind cgo is a record of
    response functions, and every native call that acts on the engine (bind,
    execute, query, prepare, destroy) is appended to a trace.  The calls that
    only read (the parameter count, the column and value getters, the error
    text of a result) are answers of the engine or fields of the result and
    leave no entry in that trace. *)

From Stdlib Require Import ZArith Ascii String DecimalString Decimal Lia.
From stdpp Require Import base list.

Open Scope Z_scope.

(** ** Go strings and the few [strings]/[strconv] functions the driver uses *)

Abbreviation gostring := (list ascii).

Definition str (s : string) : gostring := list_ascii_of_string s.

Definition NUL : ascii := "000"%char.
Definition LF : ascii := "010"%char.
Definition CR : ascii := "013"%char.
Definition SUB : ascii := "026"%char.
Definition DQUOTE : ascii := "034"%char.
Definition SQUOTE : ascii := "039"%char.
Definition BACKSLASH : ascii := "092"%char.
Definition QMARK : ascii := "?"%char.

(** [strings.Count(s, "?")] with a one-byte separator counts that byte. *)
Fixpoint Count (s : gostring) (c : ascii) : nat :=
  match s with
  | [] => O
  | x :: s' => if Ascii.eqb x c then S (Count s' c) else Count s' c
  end.

(** [strings.IndexByte(s, c)]: index of the first [c], or -1. *)
Fixpoint IndexByte (s : gostring) (c : ascii) : Z :=
  match s with
  | [] => -1
  | x :: s' =>
      if Ascii.eqb x c then 0
      else let r := IndexByte s' c in if r =? -1 then -1 else r + 1
  end.

(** [strconv.AppendInt(buf, v, 10)] appends this text. *)
Definition FormatInt (v : Z) : gostring :=
  list_ascii_of_string (NilZero.string_of_int (Z.to_int v)).

(** Two's-complement conversion to [int64]. *)
Definition int64 (z : Z) : Z := (z + 2 ^ 63) mod 2 ^ 64 - 2 ^ 63.

(** ** Errors and outcomes

    [errors.New] and [fmt.Errorf] values carry their text; [driver.ErrSkip]
    and [io.EOF] are the two sentinels of the standard library the driver
    returns.  A Go [panic] is a third outcome, apart from returned errors. *)

Inductive error : Type :=
| ErrSkip
| EOF
| errorNew (text : gostring).

Definition errInvalidType : error := errorNew (str "invalid data type").
Definition errCouldNotBind : error := errorNew (str "could not bind parameter").

Inductive outcome (A : Type) : Type :=
| Ok (a : A)
| Err (e : error)
| Panic (msg : gostring).
Arguments Ok {A} a.
Arguments Err {A} e.
Arguments Panic {A} msg.

(** ** [driver.Value]

    [time.Time] is kept as seconds since the epoch plus nanoseconds within
    the second, which is all the driver observes of it ([Unix], [UnixMicro]).
    A [float64] or [float32] is kept as its IEEE bit pattern. *)

Record Time : Type := mkTime { unixSec : Z; nsec : Z }.

Definition Unix (t : Time) : Z := unixSec t.
Definition UnixMicro (t : Time) : Z := int64 (unixSec t * 1000000 + nsec t / 1000).

Inductive Value : Type :=
| VNil
| VInt8 (v : Z)
| VInt16 (v : Z)
| VInt32 (v : Z)
| VInt64 (v : Z)
| VFloat64 (bits : Z)
| VBool (b : bool)
| VTime (t : Time)
| VString (s : gostring)
| VFloat32 (bits : Z)
| VBytes (b : gostring).

(** ** The escaper and the interpolator ([conn.go]) *)

(** One iteration of the [switch c] in [escapeValue]: the bytes written for
    the input byte [c].  The Go literals are written out byte by byte: the
    literal for NUL in the source denotes backslash, backslash, '0'. *)
Definition escapeByte (c : ascii) : gostring :=
  if Ascii.eqb c NUL then [BACKSLASH; BACKSLASH; "0"%char]
  else if Ascii.eqb c LF then [BACKSLASH; BACKSLASH; "n"%char]
  else if Ascii.eqb c CR then [BACKSLASH; BACKSLASH; "r"%char]
  else if Ascii.eqb c SUB then [BACKSLASH; BACKSLASH; "Z"%char]
  else if Ascii.eqb c SQUOTE then [BACKSLASH; BACKSLASH; SQUOTE]
  else if Ascii.eqb c DQUOTE then [BACKSLASH; DQUOTE]
  else if Ascii.eqb c BACKSLASH then [BACKSLASH; BACKSLASH]
  else [c].

(** [escapeValue]: the loop over the bytes of [v], written as a left fold
    over the buffer. *)
Fixpoint escapeValue_loop (v : gostring) (buf : gostring) : gostring :=
  match v with
  | [] => buf
  | c :: v' => escapeValue_loop v' (buf ++ escapeByte c)
  end.

Definition escapeValue (v : gostring) : gostring := escapeValue_loop v [].

Section Interpolate.

(** [strconv.AppendFloat(buf, v, 'g', -1, 64)] of the Go standard library,
    as a function of the bit pattern. *)
Variable FormatFloat : Z -> gostring.

(** The [arg == nil] test and the type switch of [interpolateParams]: the
    bytes appended for one argument, or [None] for the [default] case. *)
Definition appendArg (arg : Value) : option gostring :=
  match arg with
  | VNil => Some (str "NULL")
  | VInt8 v => Some (FormatInt v)
  | VInt16 v => Some (FormatInt v)
  | VInt32 v => Some (FormatInt v)
  | VInt64 v => Some (FormatInt v)
  | VFloat64 f => Some (FormatFloat f)
  | VBool b => Some (if b then ["1"%char] else ["0"%char])
  | VTime t => Some (FormatInt (Unix t))
  | VString s => Some ([SQUOTE] ++ escapeValue s ++ [SQUOTE])
  | VFloat32 _ => None
  | VBytes _ => None
  end.

(** The [for i := 0; i < len(query); i++] loop, one iteration per unit of
    fuel; the state is [(i, buf, argPos)].  The result is the buffer and
    [argPos] when the loop ends, or an early return. *)
Fixpoint interpolate_loop (fuel : nat) (query : gostring) (args : list Value)
    (i : nat) (buf : gostring) (argPos : nat) : outcome (gostring * nat) :=
  match fuel with
  | O => Panic (str "out of fuel")
  | S fuel' =>
      if decide (i < length query)%nat then
        let q := IndexByte (drop i query) QMARK in
        if q =? -1 then Ok (buf ++ drop i query, argPos)
        else
          let buf1 := buf ++ take (Z.to_nat q) (drop i query) in
          let i1 := (i + Z.to_nat q)%nat in
          match args !! argPos with
          | None => Panic (str "index out of range")
          | Some arg =>
              match appendArg arg with
              | Some lit =>
                  interpolate_loop fuel' query args (S i1) (buf1 ++ lit) (S argPos)
              | None => Err ErrSkip
              end
          end
      else Ok (buf, argPos)
  end.

Definition interpolateParams (query : gostring) (args : list Value)
    : outcome gostring :=
  if decide (Count query QMARK <> length args) then Err ErrSkip
  else
    match interpolate_loop (S (length query)) query args 0 [] 0 with
    | Ok (buf, argPos) =>
        if decide (argPos <> length args) then Err ErrSkip else Ok buf
    | Err e => Err e
    | Panic m => Panic m
    end.

End Interpolate.

(** ** The native engine behind cgo

    [duckdb.h] is not part of the driver.  Its enumerations are inductive
    types; a column buffer is the unbounded array the driver casts it to,
    one machine word per row; the engine's answers are functions of the
    calls made so far, so that any deterministic engine is an instance. *)

Inductive duckdb_state : Type := DuckDBSuccess | DuckDBError.

(** The type tags [Next] names, and [DUCKDB_TYPE_other] for every further tag
    of the header (unsigned integers, TIME, INTERVAL, HUGEINT, BLOB). *)
Inductive duckdb_type : Type :=
| DUCKDB_TYPE_INVALID
| DUCKDB_TYPE_BOOLEAN
| DUCKDB_TYPE_TINYINT
| DUCKDB_TYPE_SMALLINT
| DUCKDB_TYPE_INTEGER
| DUCKDB_TYPE_BIGINT
| DUCKDB_TYPE_FLOAT
| DUCKDB_TYPE_DOUBLE
| DUCKDB_TYPE_DATE
| DUCKDB_TYPE_VARCHAR
| DUCKDB_TYPE_TIMESTAMP
| DUCKDB_TYPE_other (tag : Z).

Record duckdb_column : Type := mkColumn {
  column_name : gostring;
  column_type : duckdb_type;
  column_data : Z -> Z
}.

Record duckdb_result : Type := mkResult {
  row_count : Z;
  columns : list duckdb_column;
  result_error : gostring;
  value_int64_0_0 : Z;
  GoString : Z -> gostring
}.

Definition prepared := Z.

Inductive native_call : Type :=
| duckdb_bind_int8 (p : prepared) (idx : Z) (v : Z)
| duckdb_bind_int16 (p : prepared) (idx : Z) (v : Z)
| duckdb_bind_int32 (p : prepared) (idx : Z) (v : Z)
| duckdb_bind_int64 (p : prepared) (idx : Z) (v : Z)
| duckdb_bind_double (p : prepared) (idx : Z) (bits : Z)
| duckdb_bind_boolean (p : prepared) (idx : Z) (b : bool)
| duckdb_bind_timestamp (p : prepared) (idx : Z) (micros : Z)
| duckdb_bind_varchar (p : prepared) (idx : Z) (s : gostring)
| duckdb_execute_prepared (p : prepared)
| duckdb_destroy_prepare (p : prepared)
| duckdb_destroy_result
| duckdb_query (cmd : gostring)
| duckdb_prepare (cmd : gostring).

Definition is_bind (c : native_call) : bool :=
  match c with
  | duckdb_bind_int8 _ _ _ | duckdb_bind_int16 _ _ _ | duckdb_bind_int32 _ _ _
  | duckdb_bind_int64 _ _ _ | duckdb_bind_double _ _ _
  | duckdb_bind_boolean _ _ _ | duckdb_bind_timestamp _ _ _
  | duckdb_bind_varchar _ _ _ => true
  | _ => false
  end.

Record engine : Type := mkEngine {
  duckdb_nparams : list native_call -> prepared -> Z;
  bind_state : list native_call -> native_call -> duckdb_state;
  execute_prepared_result : list native_call -> prepared -> duckdb_state * duckdb_result;
  query_result : list native_call -> gostring -> duckdb_state * duckdb_result;
  prepare_result : list native_call -> gostring -> duckdb_state * prepared
}.

(** ** Driver objects

    A [*stmt] is shared between the caller and the [duckdbRows] a query
    returns, so statements live in a heap and are named by their address. *)

Record stmt : Type := mkStmt {
  stmt_handle : prepared;
  closed : bool;
  rows : bool
}.

Record duckdbResult : Type := mkDuckdbResult { ra : Z }.

Record duckdbRows : Type := mkRows {
  r : option duckdb_result;
  s : option nat;
  cursor : Z
}.

Record world : Type := mkWorld {
  heap : list stmt;
  trace : list native_call
}.

Definition call (c : native_call) (w : world) : world :=
  mkWorld (heap w) (trace w ++ [c]).

(** ** The typed binder and the statement ([stmt]) *)

Section Statement.

Variable E : engine.

Definition NumInput (st : stmt) (w : world) : Z :=
  int64 (duckdb_nparams E (trace w) (stmt_handle st)).

(** The type switch of [start]: the native bind call for argument [v] at
    loop index [i], or [None] for the [default] case (which a nil
    interface value takes as well). *)
Definition bind_call (p : prepared) (i : nat) (v : Value) : option native_call :=
  let idx := Z.of_nat i + 1 in
  match v with
  | VInt8 x => Some (duckdb_bind_int8 p idx x)
  | VInt16 x => Some (duckdb_bind_int16 p idx x)
  | VInt32 x => Some (duckdb_bind_int32 p idx x)
  | VInt64 x => Some (duckdb_bind_int64 p idx x)
  | VFloat64 f => Some (duckdb_bind_double p idx f)
  | VBool b => Some (duckdb_bind_boolean p idx b)
  | VTime t => Some (duckdb_bind_timestamp p idx (UnixMicro t))
  | VString x => Some (duckdb_bind_varchar p idx x)
  | VNil | VFloat32 _ | VBytes _ => None
  end.

(** [for i, v := range args] of [start], from index [i] on. *)
Fixpoint start_loop (p : prepared) (i : nat) (args : list Value) (w : world)
    : world * option error :=
  match args with
  | [] => (w, None)
  | v :: args' =>
      match bind_call p i v with
      | None => (w, Some ErrSkip)
      | Some c =>
          match bind_state E (trace w) c with
          | DuckDBError => (call c w, Some errCouldNotBind)
          | DuckDBSuccess => start_loop p (S i) args' (call c w)
          end
      end
  end.

Definition start (st : stmt) (args : list Value) (w : world) : world * option error :=
  if decide (NumInput st w <> Z.of_nat (length args)) then
    (w, Some (errorNew
       (str "incorrect argument count for command: have "
        ++ FormatInt (Z.of_nat (length args)) ++ str " want "
        ++ FormatInt (NumInput st w))))
  else start_loop (stmt_handle st) 0 args w.

Definition stmt_Exec (l : nat) (args : list Value) (w : world)
    : world * outcome duckdbResult :=
  match heap w !! l with
  | None => (w, Panic (str "invalid memory address or nil pointer dereference"))
  | Some st =>
      if closed st then
        (w, Panic (str "database/sql/driver: misuse of duckdb driver: Exec after Close"))
      else if rows st then
        (w, Panic (str "database/sql/driver: misuse of duckdb driver: Exec with active Rows"))
      else
        match start st args w with
        | (w1, Some err) => (w1, Err err)
        | (w1, None) =>
            let '(rv, res) := execute_prepared_result E (trace w1) (stmt_handle st) in
            let w2 := call (duckdb_execute_prepared (stmt_handle st)) w1 in
            match rv with
            | DuckDBError => (w2, Err (errorNew (result_error res)))
            | DuckDBSuccess =>
                (call duckdb_destroy_result w2,
                 Ok (mkDuckdbResult (int64 (value_int64_0_0 res))))
            end
        end
  end.

Definition stmt_Query (l : nat) (args : list Value) (w : world)
    : world * outcome duckdbRows :=
  match heap w !! l with
  | None => (w, Panic (str "invalid memory address or nil pointer dereference"))
  | Some st =>
      if closed st then
        (w, Panic (str "database/sql/driver: misuse of duckdb driver: Query after Close"))
      else if rows st then
        (w, Panic (str "database/sql/driver: misuse of duckdb driver: Query with active Rows"))
      else
        match start st args w with
        | (w1, Some err) => (w1, Err err)
        | (w1, None) =>
            let st1 := mkStmt (stmt_handle st) (closed st) true in
            let w1' := mkWorld (<[l := st1]> (heap w1)) (trace w1) in
            let '(rv, res) := execute_prepared_result E (trace w1') (stmt_handle st) in
            let w2 := call (duckdb_execute_prepared (stmt_handle st)) w1' in
            match rv with
            | DuckDBError => (w2, Err (errorNew (result_error res)))
            | DuckDBSuccess => (w2, Ok (mkRows (Some res) (Some l) 0))
            end
        end
  end.

Definition stmt_Close (l : nat) (w : world) : world * outcome unit :=
  match heap w !! l with
  | None => (w, Panic (str "invalid memory address or nil pointer dereference"))
  | Some st =>
      if rows st then
        (w, Err (errorNew (str "database/sql/driver: misuse of duckdb driver: Close with active Rows")))
      else if closed st then
        (w, Err (errorNew (str "database/sql/driver: misuse of duckdb driver: double Close of Stmt")))
      else
        (call (duckdb_destroy_prepare (stmt_handle st))
           (mkWorld (<[l := mkStmt (stmt_handle st) true (rows st)]> (heap w)) (trace w)),
         Ok tt)
  end.

End Statement.

(** ** The result cursor ([duckdbRows]) *)

Record duckdb_date_struct : Type := mkDate { year : Z; month : Z; day : Z }.
Record duckdb_time_struct : Type := mkTimeOfDay { hour : Z; minute : Z; sec : Z; micros : Z }.
Record duckdb_timestamp_struct : Type := mkTimestamp {
  date : duckdb_date_struct;
  time : duckdb_time_struct
}.

Section Rows.

(** [time.Date(year, month, day, hour, min, sec, nsec, time.UTC)] of the Go
    standard library and the two calendar conversions of the engine. *)
Variable time_Date : Z -> Z -> Z -> Z -> Z -> Z -> Z -> Time.
Variable duckdb_from_date : Z -> duckdb_date_struct.
Variable duckdb_from_timestamp : Z -> duckdb_timestamp_struct.

(** The cases of the [switch colType] that store a value: the value decoded
    from the word [w] read at the cursor.  [None] for the tags with no such
    case. *)
Definition decodeCell (res : duckdb_result) (ty : duckdb_type) (w : Z) : option Value :=
  match ty with
  | DUCKDB_TYPE_BOOLEAN => Some (VBool (negb (w =? 0)))
  | DUCKDB_TYPE_TINYINT => Some (VInt8 w)
  | DUCKDB_TYPE_SMALLINT => Some (VInt16 w)
  | DUCKDB_TYPE_INTEGER => Some (VInt32 w)
  | DUCKDB_TYPE_BIGINT => Some (VInt64 w)
  | DUCKDB_TYPE_FLOAT => Some (VFloat32 w)
  | DUCKDB_TYPE_DOUBLE => Some (VFloat64 w)
  | DUCKDB_TYPE_DATE =>
      let val := duckdb_from_date w in
      Some (VTime (time_Date (year val) (month val) (day val) 0 0 0 0))
  | DUCKDB_TYPE_VARCHAR => Some (VString (GoString res w))
  | DUCKDB_TYPE_TIMESTAMP =>
      let val := duckdb_from_timestamp w in
      Some (VTime (time_Date (year (date val)) (month (date val)) (day (date val))
                     (hour (time val)) (minute (time val)) (sec (time val))
                     (micros (time val))))
  | DUCKDB_TYPE_INVALID => None
  | DUCKDB_TYPE_other _ => None
  end.

(** The bounds check of indexing an array of [1 << 31] elements. *)
Definition in_array (cur : Z) : bool := (0 <=? cur) && (cur <? 2 ^ 31).

(** [for i := 0; i < int(columnCount); i++] of [Next], from column [i] on:
    the row buffer as it is left, and how the loop ends. *)
Fixpoint Next_loop (res : duckdb_result) (cur : Z) (cols : list duckdb_column)
    (i : nat) (dst : list Value) : list Value * outcome unit :=
  match cols with
  | [] => (dst, Ok tt)
  | col :: cols' =>
      match column_type col with
      | DUCKDB_TYPE_INVALID => (dst, Err errInvalidType)
      | ty =>
          match decodeCell res ty (column_data col cur) with
          | None => Next_loop res cur cols' (S i) dst
          | Some v =>
              if in_array cur && bool_decide (i < length dst)%nat then
                Next_loop res cur cols' (S i) (<[i := v]> dst)
              else (dst, Panic (str "index out of range"))
          end
      end
  end.

Definition rows_Next (rs : duckdbRows) (dst : list Value)
    : duckdbRows * list Value * outcome unit :=
  match r rs with
  | None =>
      (rs, dst, Panic (str "database/sql/driver: misuse of duckdb driver: Next of closed rows"))
  | Some res =>
      if cursor rs >=? int64 (row_count res) then (rs, dst, Err EOF)
      else
        match Next_loop res (cursor rs) (columns res) 0 dst with
        | (dst', Ok _) => (mkRows (r rs) (s rs) (int64 (cursor rs + 1)), dst', Ok tt)
        | (dst', Err e) => (rs, dst', Err e)
        | (dst', Panic m) => (rs, dst', Panic m)
        end
  end.

End Rows.

Definition rows_Close (rs : duckdbRows) (w : world) : duckdbRows * world * outcome unit :=
  match r rs with
  | None =>
      (rs, w, Panic (str "database/sql/driver: misuse of duckdb driver: Close of already closed rows"))
  | Some _ =>
      let w1 := call duckdb_destroy_result w in
      match s rs with
      | Some l =>
          (mkRows None None (cursor rs),
           mkWorld (alter (fun st => mkStmt (stmt_handle st) (closed st) false) l (heap w1))
                   (trace w1),
           Ok tt)
      | None => (mkRows None None (cursor rs), w1, Ok tt)
      end
  end.

(** ** The connection ([conn]) *)

Section Connection.

Variable E : engine.
Variable FormatFloat : Z -> gostring.

Definition conn_exec (cmd : gostring) (w : world) : world * outcome duckdb_result :=
  let '(rv, res) := query_result E (trace w) cmd in
  let w1 := call (duckdb_query cmd) w in
  match rv with
  | DuckDBError => (w1, Err (errorNew (result_error res)))
  | DuckDBSuccess => (w1, Ok res)
  end.

(** [Exec] has the parameter [args] and never reads it. *)
Definition conn_Exec (query : gostring) (args : list Value) (w : world)
    : world * outcome duckdbResult :=
  match conn_exec query w with
  | (w1, Ok res) =>
      (call duckdb_destroy_result w1, Ok (mkDuckdbResult (int64 (value_int64_0_0 res))))
  | (w1, Err e) => (w1, Err e)
  | (w1, Panic m) => (w1, Panic m)
  end.

Definition conn_query (query : gostring) (args : list Value) (w : world)
    : world * outcome duckdbRows :=
  match interpolateParams FormatFloat query args with
  | Ok queryStr =>
      match conn_exec queryStr w with
      | (w1, Ok res) => (w1, Ok (mkRows (Some res) None 0))
      | (w1, Err e) => (w1, Err e)
      | (w1, Panic m) => (w1, Panic m)
      end
  | Err e => (w, Err e)
  | Panic m => (w, Panic m)
  end.

Definition conn_Query (query : gostring) (args : list Value) (w : world)
    : world * outcome duckdbRows :=
  conn_query query args w.

(** [Prepare] drops the state [duckdb_prepare] returns; the new [stmt] is
    allocated at the next free address. *)
Definition conn_Prepare (cmd : gostring) (w : world) : world * outcome nat :=
  let '(_, p) := prepare_result E (trace w) cmd in
  let w1 := call (duckdb_prepare cmd) w in
  (mkWorld (heap w1 ++ [mkStmt p false false]) (trace w1), Ok (length (heap w1))).

End Connection.

(** ** Further methods of the cursor ([Columns], the column type lookups) *)

(** [Columns]: the slice [make([]string, columnCount)] filled by the loop
    [for i := 0; i < int(columnCount); i++], from column [i] on. *)
Fixpoint Columns_loop (cols : list duckdb_column) (i : nat) (names : list gostring)
    : list gostring :=
  match cols with
  | [] => names
  | col :: cols' => Columns_loop cols' (S i) (<[i := column_name col]> names)
  end.

Definition rows_Columns (rs : duckdbRows) : outcome (list gostring) :=
  match r rs with
  | None =>
      Panic (str "database/sql/driver: misuse of duckdb driver: Columns of closed rows")
  | Some res =>
      Ok (Columns_loop (columns res) 0 (replicate (length (columns res)) []))
  end.

(** The Go types [reflect.TypeOf] is applied to in the driver, and the type
    of a [driver.Value]; a nil interface has none. *)
Inductive reflect_Type : Type :=
| Type_bool | Type_int8 | Type_int16 | Type_int32 | Type_int | Type_int64
| Type_float32 | Type_float64 | Type_Time | Type_string | Type_bytes.

Definition TypeOf (v : Value) : option reflect_Type :=
  match v with
  | VNil => None
  | VInt8 _ => Some Type_int8
  | VInt16 _ => Some Type_int16
  | VInt32 _ => Some Type_int32
  | VInt64 _ => Some Type_int64
  | VFloat64 _ => Some Type_float64
  | VBool _ => Some Type_bool
  | VTime _ => Some Type_Time
  | VString _ => Some Type_string
  | VFloat32 _ => Some Type_float32
  | VBytes _ => Some Type_bytes
  end.

(** The [switch colType] of [ColumnTypeScanType]; [None] is the final
    [return nil]. *)
Definition scanType (ty : duckdb_type) : option reflect_Type :=
  match ty with
  | DUCKDB_TYPE_BOOLEAN => Some Type_bool
  | DUCKDB_TYPE_TINYINT => Some Type_int8
  | DUCKDB_TYPE_SMALLINT => Some Type_int16
  | DUCKDB_TYPE_INTEGER => Some Type_int
  | DUCKDB_TYPE_BIGINT => Some Type_int64
  | DUCKDB_TYPE_FLOAT => Some Type_float32
  | DUCKDB_TYPE_DOUBLE => Some Type_float64
  | DUCKDB_TYPE_DATE | DUCKDB_TYPE_TIMESTAMP => Some Type_Time
  | DUCKDB_TYPE_VARCHAR => Some Type_string
  | DUCKDB_TYPE_INVALID | DUCKDB_TYPE_other _ => None
  end.

(** The [switch colType] of [ColumnTypeDatabaseTypeName]; the empty string is
    the final [return]. *)
Definition databaseTypeName (ty : duckdb_type) : gostring :=
  match ty with
  | DUCKDB_TYPE_BOOLEAN => str "BOOLEAN"
  | DUCKDB_TYPE_TINYINT => str "TINYINT"
  | DUCKDB_TYPE_SMALLINT => str "SMALLINT"
  | DUCKDB_TYPE_INTEGER => str "INT"
  | DUCKDB_TYPE_BIGINT => str "BIGINT"
  | DUCKDB_TYPE_FLOAT => str "FLOAT"
  | DUCKDB_TYPE_DOUBLE => str "DOUBLE"
  | DUCKDB_TYPE_DATE => str "DATE"
  | DUCKDB_TYPE_VARCHAR => str "VARCHAR"
  | DUCKDB_TYPE_TIMESTAMP => str "TIMESTAMP"
  | DUCKDB_TYPE_INVALID | DUCKDB_TYPE_other _ => []
  end.

(** ** Closing a connection and transactions ([conn.Close], [conn.Begin],
    [duckdbTx]) *)

(** The two native handles of a [conn]; [db] is the pointer [Close] sets to
    nil. *)
Record conn : Type := mkConn { db : option Z; con : Z }.

Inductive conn_call : Type :=
| duckdb_disconnect (c : Z)
| duckdb_close (d : Z).

(** [conn.Close], with the native calls it makes. *)
Definition conn_Close (c : conn) : conn * list conn_call * outcome unit :=
  match db c with
  | None => (c, [], Err (errorNew (str "Duckdb database already closed")))
  | Some d => (mkConn None (con c), [duckdb_disconnect (con c); duckdb_close d], Ok tt)
  end.

Record duckdbTx : Type := mkTx { tx_c : option conn }.

Section Transactions.

Variable E : engine.

Definition conn_Begin (c : conn) (w : world) : world * outcome duckdbTx :=
  match conn_exec E (str "BEGIN TRANSACTION") w with
  | (w1, Ok _) => (w1, Ok (mkTx (Some c)))
  | (w1, Err e) => (w1, Err e)
  | (w1, Panic m) => (w1, Panic m)
  end.

(** [Commit] and [Rollback] differ in the statement only: [t.c.exec(cmd)],
    then [t.c = nil], then the error of the execution is returned.  With
    [t.c] nil the call dereferences a nil pointer. *)
Definition tx_finish (cmd : gostring) (t : duckdbTx) (w : world)
    : duckdbTx * world * outcome unit :=
  match tx_c t with
  | None => (t, w, Panic (str "invalid memory address or nil pointer dereference"))
  | Some _ =>
      match conn_exec E cmd w with
      | (w1, Ok _) => (mkTx None, w1, Ok tt)
      | (w1, Err e) => (mkTx None, w1, Err e)
      | (w1, Panic m) => (mkTx None, w1, Panic m)
      end
  end.

Definition tx_Commit (t : duckdbTx) (w : world) : duckdbTx * world * outcome unit :=
  tx_finish (str "COMMIT TRANSACTION") t w.

Definition tx_Rollback (t : duckdbTx) (w : world) : duckdbTx * world * outcome unit :=
  tx_finish (str "ROLLBACK") t w.

End Transactions.

(** ** Opening a database ([duckdb.Open], [setConfig]) *)

Inductive open_call : Type :=
| duckdb_create_config
| duckdb_destroy_config
| duckdb_set_config (flag value : gostring)
| duckdb_open_ext (path : gostring)
| duckdb_connect (d : Z).

(** The engine's answers while a database is opened, as functions of the
    calls made so far. *)
Record open_engine : Type := mkOpenEngine {
  create_config_state : duckdb_state;
  open_ext_result : list open_call -> gostring -> duckdb_state * Z;
  connect_result : list open_call -> Z -> duckdb_state * Z
}.

Definition errError : error := errorNew (str "could not open database").

Section Open.

Variable OE : open_engine.

(** [url.ParseQuery] of the Go standard library: an error, or the [Get]
    function of the parsed values (the first value of a key, or the empty
    string). *)
Variable ParseQuery : gostring -> error + (gostring -> gostring).

(** [setConfig] drops what [duckdb_set_config] returns. *)
Definition setConfig (tr : list open_call) (flag value : gostring) : list open_call :=
  tr ++ [duckdb_set_config flag value].

(** The body of [if pos >= 1 { ... }] once the query is parsed: the four
    options are read, then set in this order when not empty. *)
Definition applyParams (get : gostring -> gostring) (tr : list open_call)
    : list open_call :=
  let pick (key : gostring) : gostring :=
    match get key with
    | [] => []
    | val => val
    end in
  let mode := pick (str "access_mode") in
  let threads := pick (str "threads") in
  let maxMemory := pick (str "max_memory") in
  let defaultOrder := pick (str "default_order") in
  let tr1 := match mode with [] => tr | _ => setConfig tr (str "access_mode") mode end in
  let tr2 := match threads with [] => tr1 | _ => setConfig tr1 (str "threads") threads end in
  let tr3 := match maxMemory with
             | [] => tr2
             | _ => setConfig tr2 (str "max_memory") maxMemory
             end in
  match defaultOrder with
  | [] => tr3
  | _ => setConfig tr3 (str "default_order") defaultOrder
  end.

(** [Open]: the native calls made, in order, and the result.  The deferred
    [duckdb_destroy_config] runs on every return after the configuration was
    created. *)
Definition Open (dsn : gostring) : list open_call * outcome conn :=
  match create_config_state OE with
  | DuckDBError => ([duckdb_create_config], Err errError)
  | DuckDBSuccess =>
      let tr0 := [duckdb_create_config] in
      let pos := IndexByte dsn QMARK in
      let parsed : list open_call * gostring + error :=
        if 1 <=? pos then
          match ParseQuery (drop (Z.to_nat (pos + 1)) dsn) with
          | inl err => inr err
          | inr get => inl (applyParams get tr0, take (Z.to_nat pos) dsn)
          end
        else inl (tr0, dsn) in
      match parsed with
      | inr err => (tr0 ++ [duckdb_destroy_config], Err err)
      | inl (tr1, path) =>
          let '(rv, d) := open_ext_result OE tr1 path in
          let tr2 := tr1 ++ [duckdb_open_ext path] in
          match rv with
          | DuckDBError => (tr2 ++ [duckdb_destroy_config], Err errError)
          | DuckDBSuccess =>
              let '(rv2, c) := connect_result OE tr2 d in
              let tr3 := tr2 ++ [duckdb_connect d] in
              match rv2 with
              | DuckDBError => (tr3 ++ [duckdb_destroy_config], Err errError)
              | DuckDBSuccess =>
                  (tr3 ++ [duckdb_destroy_config], Ok (mkConn (Some d) c))
              end
          end
      end
  end.

End Open.

(** ** Notions the properties are stated with *)

(** Replacing the placeholders of a query, left to right, by the literals of
    a list; a placeholder with no literal left stays. *)
Fixpoint substitute (query : gostring) (lits : list gostring) : gostring :=
  match query with
  | [] => []
  | c :: query' =>
      if Ascii.eqb c QMARK then
        match lits with
        | lit :: lits' => lit ++ substitute query' lits'
        | [] => c :: substitute query' []
        end
      else c :: substitute query' lits
  end.

(** A [float64] by its bit pattern: sign, 11 exponent bits, 52 fraction bits.
    A finite value other than zero is [m * 2^e], negated when [neg]. *)
Inductive float_class : Type :=
| FNaN
| FInf (neg : bool)
| FZero (neg : bool)
| FFinite (neg : bool) (m e : Z).

Definition classify (bits : Z) : float_class :=
  let neg := (bits / 2 ^ 63) mod 2 =? 1 in
  let expo := (bits / 2 ^ 52) mod 2 ^ 11 in
  let frac := bits mod 2 ^ 52 in
  if expo =? 2047 then (if frac =? 0 then FInf neg else FNaN)
  else if expo =? 0 then (if frac =? 0 then FZero neg else FFinite neg frac (-1074))
  else FFinite neg (2 ^ 52 + frac) (expo - 1075).

(** Comparing [D * 10^k] with [N * 2^j], on integers. *)
Definition compare_scaled (D k N j : Z) : comparison :=
  (D * 10 ^ Z.max k 0 * 2 ^ Z.max (- j) 0 ?= N * 2 ^ Z.max j 0 * 10 ^ Z.max (- k) 0).

(** [D * 10^k] rounds to the float [m * 2^e] (to nearest, ties to the even
    fraction): it lies between the midpoints to the two neighbours, the
    midpoints themselves included when [m] is even.  The lower neighbour is
    half as far when [m] is the least fraction of a binade. *)
Definition rounds_to (D k m e : Z) : bool :=
  let lower := if (m =? 2 ^ 52) && (-1074 <? e) then (4 * m - 1, e - 2)
               else (2 * m - 1, e - 1) in
  let tie := Z.even m in
  match compare_scaled D k lower.1 lower.2 with
  | Gt => true | Eq => tie | Lt => false
  end
  && match compare_scaled D k (2 * m + 1) (e - 1) with
     | Lt => true | Eq => tie | Gt => false
     end.

(** Reading a decimal text: an optional minus, digits, an optional point with
    digits, an optional exponent [e], sign, digits.  The result is the sign,
    the digits as an integer [D] and the power of ten [k]: the text denotes
    [D * 10^k]. *)
Definition digit_of (c : ascii) : option Z :=
  let n := Z.of_nat (nat_of_ascii c) in
  if (48 <=? n) && (n <=? 57) then Some (n - 48) else None.

Fixpoint read_digits (x : gostring) (acc : Z) (count : nat) : Z * nat * gostring :=
  match x with
  | c :: x' =>
      match digit_of c with
      | Some d => read_digits x' (acc * 10 + d) (S count)
      | None => (acc, count, x)
      end
  | [] => (acc, count, [])
  end.

Definition parse_exponent (x : gostring) : option Z :=
  match x with
  | [] => Some 0
  | e :: sg :: ds =>
      if Ascii.eqb e "e"%char then
        let '(v, n, rest) := read_digits ds 0 0 in
        match n, rest with
        | S _, [] =>
            if Ascii.eqb sg "+"%char then Some v
            else if Ascii.eqb sg "-"%char then Some (- v)
            else None
        | _, _ => None
        end
      else None
  | _ => None
  end.

Definition parse_decimal (text : gostring) : option (bool * Z * Z) :=
  let '(neg, body) := match text with
                      | c :: rest => if Ascii.eqb c "-"%char then (true, rest) else (false, text)
                      | [] => (false, text)
                      end in
  let '(ip, n1, after_int) := read_digits body 0 0 in
  match n1 with
  | O => None
  | S _ =>
      let '(D, nf, after_frac) :=
        match after_int with
        | c :: rest =>
            if Ascii.eqb c "."%char then read_digits rest ip 0 else (ip, O, after_int)
        | [] => (ip, O, after_int)
        end in
      match after_int, nf with
      | c :: _, O => if Ascii.eqb c "."%char then None
                     else (fun ex => (neg, D, ex - Z.of_nat nf)) <$> parse_exponent after_frac
      | _, _ => (fun ex => (neg, D, ex - Z.of_nat nf)) <$> parse_exponent after_frac
      end
  end.

(** The number of significant digits of [D]: its decimal digits, the zeros at
    the end not counted. *)
Fixpoint drop_zeros (x : gostring) : gostring :=
  match x with
  | c :: x' => if Ascii.eqb c "0"%char then drop_zeros x' else x
  | [] => []
  end.

Definition significant_digits (D : Z) : nat :=
  length (drop_zeros (rev (FormatInt D))).

(** The contract of [strconv.AppendFloat(buf, v, 'g', -1, 64)] as far as the
    driver relies on it: the text is the shortest decimal that reads back as
    the same [float64].  For a finite value other than zero: the text is a
    decimal of the value's sign that rounds to the value, and no decimal with
    fewer significant digits does. *)
Definition shortest_decimal (bits : Z) (text : gostring) : Prop :=
  match classify bits with
  | FNaN => text = str "NaN"
  | FInf neg => text = if neg then str "-Inf" else str "+Inf"
  | FZero neg => text = if neg then str "-0" else str "0"
  | FFinite neg m e =>
      exists D k : Z,
        parse_decimal text = Some (neg, D, k)
        /\ rounds_to D k m e = true
        /\ forall D' k' : Z,
             0 <= D' ->
             (length (FormatInt D') < significant_digits D)%nat ->
             rounds_to D' k' m e = false
  end.

(** The float formatter meets its contract on argument [v]. *)
Definition float_contract (FormatFloat : Z -> gostring) (v : Value) : Prop :=
  match v with
  | VFloat64 f => shortest_decimal f (FormatFloat f)
  | _ => True
  end.

(** The rendering of each kind, in the words of the specification. *)
Inductive literal_of : Value -> gostring -> Prop :=
| literal_null : literal_of VNil (str "NULL")
| literal_int8 v : literal_of (VInt8 v) (FormatInt v)
| literal_int16 v : literal_of (VInt16 v) (FormatInt v)
| literal_int32 v : literal_of (VInt32 v) (FormatInt v)
| literal_int64 v : literal_of (VInt64 v) (FormatInt v)
| literal_float f text : shortest_decimal f text -> literal_of (VFloat64 f) text
| literal_true : literal_of (VBool true) (str "1")
| literal_false : literal_of (VBool false) (str "0")
| literal_time t : literal_of (VTime t) (FormatInt (unixSec t))
| literal_text x : literal_of (VString x) (SQUOTE :: escapeValue x ++ [SQUOTE]).

(** The question marks an argument brings into the interpolated text: those
    of a text argument. *)
Definition question_marks (v : Value) : nat :=
  match v with
  | VString x => Count x QMARK
  | _ => O
  end.

(** An argument that brings no question mark of its own: every argument but
    a text that holds one. *)
Definition qfree (v : Value) : Prop :=
  match v with
  | VString x => Count x QMARK = O
  | _ => True
  end.

(** The literals of a whole argument list; [None] when one has no rule. *)
Fixpoint literals (FormatFloat : Z -> gostring) (args : list Value)
    : option (list gostring) :=
  match args with
  | [] => Some []
  | a :: args' =>
      match appendArg FormatFloat a with
      | None => None
      | Some lit =>
          match literals FormatFloat args' with
          | None => None
          | Some lits => Some (lit :: lits)
          end
      end
  end.

Fixpoint total_count (lits : list gostring) (c : ascii) : nat :=
  match lits with
  | [] => O
  | lit :: lits' => (Count lit c + total_count lits' c)%nat
  end.

(** Reading a single-quoted literal after its opening quote, in a dialect
    where a backslash takes the next byte with it: what follows the closing
    quote, or [None] when the literal never closes. *)
Fixpoint after_literal_backslash (body : gostring) : option gostring :=
  match body with
  | [] => None
  | c :: rest =>
      if Ascii.eqb c SQUOTE then Some rest
      else if Ascii.eqb c BACKSLASH then
        match rest with
        | [] => None
        | _ :: rest' => after_literal_backslash rest'
        end
      else after_literal_backslash rest
  end.

(** The same in the standard dialect, where only a doubled quote stands for
    a quote and a backslash is an ordinary byte. *)
Fixpoint after_literal_doubling (body : gostring) : option gostring :=
  match body with
  | [] => None
  | c :: rest =>
      if Ascii.eqb c SQUOTE then
        match rest with
        | c' :: rest' =>
            if Ascii.eqb c' SQUOTE then after_literal_doubling rest'
            else Some rest
        | [] => Some []
        end
      else after_literal_doubling rest
  end.

(** A fragment is one whole single-quoted literal when it opens with a quote
    and the literal closes exactly at its end. *)
Definition is_literal (after : gostring -> option gostring) (frag : gostring) : bool :=
  match frag with
  | c :: body =>
      Ascii.eqb c SQUOTE &&
      match after body with
      | Some [] => true
      | _ => false
      end
  | [] => false
  end.

(** The literal [interpolateParams] writes for a text argument. *)
Definition text_literal (x : gostring) : gostring :=
  [SQUOTE] ++ escapeValue x ++ [SQUOTE].

(** The bytes [escapeValue] rewrites. *)
Definition special (c : ascii) : bool :=
  Ascii.eqb c NUL || Ascii.eqb c LF || Ascii.eqb c CR || Ascii.eqb c SUB
  || Ascii.eqb c SQUOTE || Ascii.eqb c DQUOTE || Ascii.eqb c BACKSLASH.

(** The argument kinds the specification lists as supported. *)
Definition supported_kind (v : Value) : bool :=
  match v with
  | VNil | VInt8 _ | VInt16 _ | VInt32 _ | VInt64 _ | VFloat64 _ | VBool _
  | VTime _ | VString _ => true
  | VFloat32 _ | VBytes _ => false
  end.

(** The type tags of the decode table. *)
Definition decodable (ty : duckdb_type) : bool :=
  match ty with
  | DUCKDB_TYPE_INVALID | DUCKDB_TYPE_other _ => false
  | _ => true
  end.

(** A statement is open when it is neither closed nor has an open cursor. *)
Definition is_open (st : stmt) : bool := negb (closed st) && negb (rows st).

Definition is_panic {A : Type} (o : outcome A) : bool :=
  match o with Panic _ => true | _ => false end.

Definition set_cursor (rs : duckdbRows) (k : Z) : duckdbRows := mkRows (r rs) (s rs) k.

Section RowsNotions.

Variable time_Date : Z -> Z -> Z -> Z -> Z -> Z -> Z -> Time.
Variable duckdb_from_date : Z -> duckdb_date_struct.
Variable duckdb_from_timestamp : Z -> duckdb_timestamp_struct.

(** Row [k] of a result, column by column in native order. *)
Definition native_row (res : duckdb_result) (k : Z) : list Value :=
  omap (fun col => decodeCell time_Date duckdb_from_date duckdb_from_timestamp
                     res (column_type col) (column_data col k))
       (columns res).

(** The cursor and the row buffer after [n] calls of [Next]. *)
Fixpoint after_calls (n : nat) (rs : duckdbRows) (dst : list Value)
    : duckdbRows * list Value :=
  match n with
  | O => (rs, dst)
  | S n' =>
      let '(rs1, dst1) := after_calls n' rs dst in
      fst (rows_Next time_Date duckdb_from_date duckdb_from_timestamp rs1 dst1)
  end.

End RowsNotions.

(** ** Instances for the closed examples

    The calendar functions for UTC (proleptic Gregorian calendar, days counted
    from 1970-01-01), a float formatter that is exact on +0 (no example
    formats another float), and two engines. *)

Definition days_from_civil (y m d : Z) : Z :=
  let y1 := if m <=? 2 then y - 1 else y in
  let era := y1 / 400 in
  let yoe := y1 - era * 400 in
  let doy := (153 * (if m >? 2 then m - 3 else m + 9) + 2) / 5 + d - 1 in
  let doe := yoe * 365 + yoe / 4 - yoe / 100 + doy in
  era * 146097 + doe - 719468.

Definition civil_from_days (z : Z) : duckdb_date_struct :=
  let z1 := z + 719468 in
  let era := z1 / 146097 in
  let doe := z1 - era * 146097 in
  let yoe := (doe - doe / 1460 + doe / 36524 - doe / 146096) / 365 in
  let doy := doe - (365 * yoe + yoe / 4 - yoe / 100) in
  let mp := (5 * doy + 2) / 153 in
  let d := doy - (153 * mp + 2) / 5 + 1 in
  let m := if mp <? 10 then mp + 3 else mp - 9 in
  mkDate (yoe + era * 400 + (if m <=? 2 then 1 else 0)) m d.

Definition utc_Date (y m d h mi sc ns : Z) : Time :=
  let y1 := y + (m - 1) / 12 in
  let m1 := (m - 1) mod 12 + 1 in
  let days := days_from_civil y1 m1 1 + (d - 1) in
  mkTime (days * 86400 + h * 3600 + mi * 60 + sc + ns / 1000000000)
         (ns mod 1000000000).

Definition from_date (days : Z) : duckdb_date_struct := civil_from_days days.

Definition from_timestamp (us : Z) : duckdb_timestamp_struct :=
  let rest := us mod 86400000000 in
  mkTimestamp (civil_from_days (us / 86400000000))
    (mkTimeOfDay (rest / 3600000000) (rest / 60000000 mod 60)
                 (rest / 1000000 mod 60) (rest mod 1000000)).

Definition FormatFloat_zero (bits : Z) : gostring :=
  if bits =? 0 then str "0" else str "NaN".

(** A float formatter that is exact on +0 and on 0.5 (bit pattern
    0x3FE0000000000000). *)
Definition FormatFloat_half (bits : Z) : gostring :=
  if bits =? 4602678819172646912 then str "0.5" else FormatFloat_zero bits.

(** A result of two rows over (VARCHAR, INTEGER, BOOLEAN). *)
Definition users_result : duckdb_result :=
  mkResult 2
    [ mkColumn (str "name") DUCKDB_TYPE_VARCHAR (fun k => 100 + k);
      mkColumn (str "age") DUCKDB_TYPE_INTEGER (fun k => if k =? 0 then 99 else 70);
      mkColumn (str "awesome") DUCKDB_TYPE_BOOLEAN (fun _ => 1) ]
    [] 2
    (fun p => if p =? 100 then str "marc" else str "macgyver").

Definition error_result (text : string) : duckdb_result :=
  mkResult 0 [] (str text) 0 (fun _ => []).

(** An engine on which everything succeeds; every statement has one
    parameter. *)
Definition good_engine : engine :=
  mkEngine (fun _ _ => 1) (fun _ _ => DuckDBSuccess)
           (fun _ _ => (DuckDBSuccess, users_result))
           (fun _ _ => (DuckDBSuccess, users_result))
           (fun _ _ => (DuckDBSuccess, 7)).

(** An engine that rejects every statement: prepare, execute and bind all
    report an error. *)
Definition bad_engine : engine :=
  mkEngine (fun _ _ => 1) (fun _ _ => DuckDBError)
           (fun _ _ => (DuckDBError, error_result "Binder Error: no such table"))
           (fun _ _ => (DuckDBError, error_result "Parser Error: syntax error"))
           (fun _ _ => (DuckDBError, 0)).

(** An engine that binds and prepares, and whose execution fails. *)
Definition failing_engine : engine :=
  mkEngine (fun _ _ => 1) (fun _ _ => DuckDBSuccess)
           (fun _ _ => (DuckDBError, error_result "Conversion Error: bad value"))
           (fun _ _ => (DuckDBError, error_result "Parser Error: syntax error"))
           (fun _ _ => (DuckDBSuccess, 7)).

(** An engine on which the preparation failed: the handle has no parameter
    and its execution reports the error of the preparation. *)
Definition unprepared_engine : engine :=
  mkEngine (fun _ _ => 0) (fun _ _ => DuckDBSuccess)
           (fun _ _ => (DuckDBError, error_result "Parser Error: syntax error at or near SELEC"))
           (fun _ _ => (DuckDBError, error_result "Parser Error: syntax error at or near SELEC"))
           (fun _ _ => (DuckDBError, 0)).

(** The same with three parameters per statement. *)
Definition three_param_engine : engine :=
  mkEngine (fun _ _ => 3) (fun _ _ => DuckDBSuccess)
           (execute_prepared_result good_engine) (query_result good_engine)
           (prepare_result good_engine).

Definition one_stmt : world := mkWorld [mkStmt 7 false false] [].

(** ** Notions for the further properties *)

(** The bind calls [start] makes for a whole argument list when every bind
    succeeds, argument [j] at parameter index [i + j + 1]; the list stops at
    an argument without a rule. *)
Fixpoint bind_calls (p : prepared) (i : nat) (args : list Value) : list native_call :=
  match args with
  | [] => []
  | v :: args' =>
      match bind_call p i v with
      | Some c => c :: bind_calls p (S i) args'
      | None => []
      end
  end.



(** A statement is never both closed and with an open cursor. *)
Definition coherent (st : stmt) : bool := negb (closed st && rows st).

(** How one statement may change: the handle stays, a closed statement stays
    closed, and it never becomes closed with an open cursor. *)
Definition evolves (st st' : stmt) : Prop :=
  stmt_handle st' = stmt_handle st
  /\ (closed st = true -> closed st' = true)
  /\ (coherent st = true -> coherent st' = true).

(** The operations a caller can apply to the statements and cursors of one
    connection, and the world after a sequence of them. *)
Inductive driver_op : Type :=
| op_stmt_Exec (l : nat) (args : list Value)
| op_stmt_Query (l : nat) (args : list Value)
| op_stmt_Close (l : nat)
| op_rows_Close (rs : duckdbRows)
| op_conn_Exec (query : gostring) (args : list Value)
| op_conn_Query (query : gostring) (args : list Value)
| op_conn_Prepare (cmd : gostring).

Definition run_op (E : engine) (FormatFloat : Z -> gostring) (o : driver_op) (w : world)
    : world :=
  match o with
  | op_stmt_Exec l args => (stmt_Exec E l args w).1
  | op_stmt_Query l args => (stmt_Query E l args w).1
  | op_stmt_Close l => (stmt_Close l w).1
  | op_rows_Close rs => (rows_Close rs w).1.2
  | op_conn_Exec query args => (conn_Exec E query args w).1
  | op_conn_Query query args => (conn_Query E FormatFloat query args w).1
  | op_conn_Prepare cmd => (conn_Prepare E cmd w).1
  end.

Fixpoint run_ops (E : engine) (FormatFloat : Z -> gostring) (ops : list driver_op)
    (w : world) : world :=
  match ops with
  | [] => w
  | o :: ops' => run_ops E FormatFloat ops' (run_op E FormatFloat o w)
  end.

(** The [duckdb_set_config] calls for the four options, in the order [Open]
    sets them, one for each option with a value. *)
Definition config_calls (get : gostring -> gostring) : list open_call :=
  omap (fun key => match get key with
                   | [] => None
                   | val => Some (duckdb_set_config key val)
                   end)
       [str "access_mode"; str "threads"; str "max_memory"; str "default_order"].

Definition is_set_config (c : open_call) : bool :=
  match c with duckdb_set_config _ _ => true | _ => false end.

Fixpoint bytes_eqb (a b : gostring) : bool :=
  match a, b with
  | [], [] => true
  | x :: a', y :: b' => Ascii.eqb x y && bytes_eqb a' b'
  | _, _ => false
  end.

(** Instances for the closed examples: the values of the query
    [access_mode=READ_ONLY&threads=4&foo=bar], and an engine that opens and
    connects. *)
Definition ParseQuery_example (q : gostring) : error + (gostring -> gostring) :=
  inr (fun key =>
         if bytes_eqb key (str "access_mode") then str "READ_ONLY"
         else if bytes_eqb key (str "threads") then str "4"
         else if bytes_eqb key (str "foo") then str "bar"
         else []).

Definition open_ok : open_engine :=
  mkOpenEngine DuckDBSuccess (fun _ _ => (DuckDBSuccess, 1)) (fun _ _ => (DuckDBSuccess, 2)).

(** ** The statement life cycle *)

Section StatementFacts.

Variable E : engine.

Lemma start_loop_heap p args : forall i w,
  heap (start_loop E p i args w).1 = heap w.
Proof.
  induction args as [|v args IH]; intros i w; simpl; [done|].
  destruct (bind_call p i v) as [c|]; [|done].
  destruct (bind_state E (trace w) c); [|done].
  by rewrite IH.
Qed.

Lemma start_heap st args w : heap (start E st args w).1 = heap w.
Proof.
  unfold start. case_decide; [done|]. apply start_loop_heap.
Qed.

(** The calls [start_loop] adds to the trace are bind calls only. *)
Lemma start_loop_trace p args : forall i w,
  exists binds, trace (start_loop E p i args w).1 = trace w ++ binds
                /\ forallb is_bind binds = true.
Proof.
  induction args as [|v args IH]; intros i w; simpl.
  - exists []. by rewrite app_nil_r.
  - destruct (bind_call p i v) as [c|] eqn:Hc.
    + assert (is_bind c = true) as Hb by (destruct v; simpl in Hc; by simplify_eq).
      destruct (bind_state E (trace w) c).
      * destruct (IH (S i) (call c w)) as (bs & -> & Hbs).
        exists (c :: bs). simpl. rewrite <- app_assoc. split; [done|].
        by rewrite Hb.
      * exists [c]. simpl. by rewrite Hb.
    + exists []. by rewrite app_nil_r.
Qed.

(** A failed bind attempt leaves the statement as it was: [start] writes
    no field of it. *)
Lemma stmt_Query_bind_failure_keeps_open l st args w w1 e :
  heap w !! l = Some st -> is_open st = true ->
  start E st args w = (w1, Some e) ->
  stmt_Query E l args w = (w1, Err e) /\ heap w1 !! l = Some st.
Proof.
  intros Hl Ho Hs. unfold stmt_Query. rewrite Hl.
  unfold is_open in Ho. destruct (closed st), (rows st); try done.
  rewrite Hs. split; [done|].
  pose proof (start_heap st args w) as Hh. rewrite Hs in Hh. simpl in Hh.
  by rewrite Hh.
Qed.

(** [Exec] never sets the cursor flag, so any failure of it leaves the
    statement open. *)
Lemma stmt_Exec_keeps_heap l args w : heap (stmt_Exec E l args w).1 = heap w.
Proof.
  unfold stmt_Exec. destruct (heap w !! l) as [st|]; [|done].
  destruct (closed st); [done|]. destruct (rows st); [done|].
  pose proof (start_heap st args w) as Hh.
  destruct (start E st args w) as [w1 [e|]]; simpl in *; [done|].
  destruct (execute_prepared_result E (trace w1) (stmt_handle st)) as [[] res];
    simpl; done.
Qed.

End StatementFacts.

(** C10: for every command text and every engine, whatever state
    [duckdb_prepare] reports, [Prepare] returns a statement and a nil error;
    the statement is open and carries the handle the engine left, and its
    parameter count is what the engine reports for that handle.  A failed
    preparation does not show at [Close] either, which returns nil.  It
    shows at the first execution: when the engine refuses to execute the
    handle of the failed preparation, every [Exec] and every [Query] on the
    statement returns an error, the binder's own or else the engine's error
    text of the execution, and [Query] hands out no cursor. *)
Theorem conn_Prepare_ignores_prepare_state (E : engine) (cmd : gostring) (w : world) :
  let l := length (heap w) in
  let p := (prepare_result E (trace w) cmd).2 in
  let st := mkStmt p false false in
  exists w1 : world,
    conn_Prepare E cmd w = (w1, Ok l)
    /\ heap w1 !! l = Some st
    /\ trace w1 = trace w ++ [duckdb_prepare cmd]
    /\ NumInput E st w1 = int64 (duckdb_nparams E (trace w1) p)
    /\ (stmt_Close l w1).2 = Ok tt
    /\ ((prepare_result E (trace w) cmd).1 = DuckDBError ->
        (forall tr, (execute_prepared_result E tr p).1 = DuckDBError) ->
        forall args,
          let bound := start E st args w1 in
          let failure :=
            match bound.2 with
            | Some e => e
            | None => errorNew (result_error (execute_prepared_result E (trace bound.1) p).2)
            end in
          (stmt_Exec E l args w1).2 = Err failure
          /\ (stmt_Query E l args w1).2 = Err failure).
Proof.
  intros l p st. unfold conn_Prepare.
  subst l p st. destruct (prepare_result E (trace w) cmd) as [rv p] eqn:Hp. simpl.
  eexists; split; [reflexivity|]. simpl.
  assert ((heap w ++ [mkStmt p false false]) !! length (heap w)
          = Some (mkStmt p false false)) as Hl.
  { rewrite lookup_app_r; [|lia]. by rewrite Nat.sub_diag. }
  split; [done|]. split; [done|]. split; [done|]. split.
  { unfold stmt_Close. simpl. by rewrite Hl. }
  intros _ Hexec args. unfold stmt_Exec, stmt_Query. simpl. rewrite Hl. simpl.
  pose proof (start_heap E (mkStmt p false false) args
                (mkWorld (heap w ++ [mkStmt p false false])
                         (trace w ++ [duckdb_prepare cmd]))) as Hh.
  destruct (start E (mkStmt p false false) args _) as [w2 [e|]]; simpl in *; [done|].
  pose proof (Hexec (trace w2)) as He.
  destruct (execute_prepared_result E (trace w2) p) as [rv2 res]. simpl in *.
  by subst rv2.
Qed.

Lemma conn_Prepare_ignores_prepare_state_witness :
  let prepared := conn_Prepare unprepared_engine (str "SELEC 1 FRM") (mkWorld [] []) in
  prepared.2 = Ok 0%nat
  /\ (stmt_Exec unprepared_engine 0 [] prepared.1).2
     = Err (errorNew (str "Parser Error: syntax error at or near SELEC"))
  /\ (stmt_Query unprepared_engine 0 [] prepared.1).2
     = Err (errorNew (str "Parser Error: syntax error at or near SELEC"))
  /\ (stmt_Query unprepared_engine 0 [VInt64 1] prepared.1).2
     = Err (errorNew (str "incorrect argument count for command: have 1 want 0")).
Proof.
  intros prepared.
  destruct (conn_Prepare_ignores_prepare_state unprepared_engine (str "SELEC 1 FRM")
              (mkWorld [] [])) as (w1 & Hprep & _ & _ & _ & _ & Hfail).
  fold prepared in Hprep. rewrite Hprep. simpl.
  split; [reflexivity|]. split; [|split].
  - exact (proj1 (Hfail eq_refl (fun _ => eq_refl) [])).
  - exact (proj2 (Hfail eq_refl (fun _ => eq_refl) [])).
  - exact (proj2 (Hfail eq_refl (fun _ => eq_refl) [VInt64 1])).
Defined.

(** On an engine whose prepare reports an error, [Prepare] still answers
    with a statement. *)
Example conn_Prepare_bad_engine :
  (conn_Prepare bad_engine (str "SELEC 1 FRM") (mkWorld [] [])).2 = Ok 0%nat.
Proof. reflexivity. Qed.

(** [Exec] submits its first argument for every query and argument list. *)
Lemma conn_Exec_trace (E : engine) query args w :
  exists rest, trace (conn_Exec E query args w).1 = trace w ++ duckdb_query query :: rest.
Proof.
  unfold conn_Exec, conn_exec.
  destruct (query_result E (trace w) query) as [[] res]; simpl.
  - exists [duckdb_destroy_result]. by rewrite <- app_assoc.
  - by exists [].
Qed.

(** [Query] submits the interpolated text and nothing else. *)
Lemma conn_Query_trace (E : engine) ff query args w text :
  interpolateParams ff query args = Ok text ->
  trace (conn_Query E ff query args w).1 = trace w ++ [duckdb_query text].
Proof.
  intros Hi. unfold conn_Query, conn_query. rewrite Hi. unfold conn_exec.
  destruct (query_result E (trace w) text) as [[] res]; reflexivity.
Qed.

(** C1: [Query] submits the interpolated text, [Exec] submits the query text
    as the caller wrote it, placeholder included, although interpolating the
    same arguments succeeds. *)
Theorem conn_Exec_submits_uninterpolated_query (E : engine) (w : world) :
  let query := str "DELETE FROM users WHERE age > ?" in
  let args := [VInt64 30] in
  interpolateParams FormatFloat_zero query args
    = Ok (str "DELETE FROM users WHERE age > 30")
  /\ trace (conn_Query E FormatFloat_zero query args w).1
     = trace w ++ [duckdb_query (str "DELETE FROM users WHERE age > 30")]
  /\ exists rest,
       trace (conn_Exec E query args w).1
       = trace w ++ duckdb_query (str "DELETE FROM users WHERE age > ?") :: rest.
Proof.
  intros query args. split; [reflexivity|]. split.
  - by apply conn_Query_trace.
  - apply conn_Exec_trace.
Qed.

(** C2: a query whose execution the engine rejects returns the engine's
    error and leaves the cursor flag set, so the next [Query] and [Exec] on
    the statement panic and [Close] is refused. *)
Theorem stmt_Query_engine_error_keeps_cursor_flag :
  let attempt := stmt_Query failing_engine 0 [VInt64 1] one_stmt in
  attempt.2 = Err (errorNew (str "Conversion Error: bad value"))
  /\ heap attempt.1 !! 0%nat = Some (mkStmt 7 false true)
  /\ (stmt_Query failing_engine 0 [VInt64 1] attempt.1).2
     = Panic (str "database/sql/driver: misuse of duckdb driver: Query with active Rows")
  /\ (stmt_Exec failing_engine 0 [VInt64 1] attempt.1).2
     = Panic (str "database/sql/driver: misuse of duckdb driver: Exec with active Rows")
  /\ (stmt_Close 0 attempt.1).2
     = Err (errorNew (str "database/sql/driver: misuse of duckdb driver: Close with active Rows")).
Proof. vm_compute. repeat split. Qed.

(** The same on every engine: when the bind succeeds and the execution
    fails, [Query] leaves the statement with the cursor flag set. *)
Lemma stmt_Query_execute_error_sets_rows (E : engine) l st args w w1 res :
  heap w !! l = Some st -> is_open st = true ->
  start E st args w = (w1, None) ->
  execute_prepared_result E (trace w1) (stmt_handle st) = (DuckDBError, res) ->
  (stmt_Query E l args w).2 = Err (errorNew (result_error res))
  /\ heap (stmt_Query E l args w).1 !! l = Some (mkStmt (stmt_handle st) false true).
Proof.
  intros Hl Ho Hs He. unfold stmt_Query. rewrite Hl.
  unfold is_open in Ho. destruct (closed st) eqn:Hc, (rows st); try done.
  rewrite Hs. simpl. rewrite He. simpl. split; [done|].
  pose proof (start_heap E st args w) as Hh. rewrite Hs in Hh. simpl in Hh.
  rewrite Hh. apply list_lookup_insert_eq. by eapply lookup_lt_Some.
Qed.

(** An open statement accepts [Exec] and [Query]: neither panics. *)
Lemma stmt_Exec_open_accepted (E : engine) l st args w :
  heap w !! l = Some st -> is_open st = true ->
  is_panic (stmt_Exec E l args w).2 = false.
Proof.
  intros Hl Ho. unfold stmt_Exec. rewrite Hl.
  unfold is_open in Ho. destruct (closed st), (rows st); try done.
  destruct (start E st args w) as [w1 [e|]]; [done|].
  by destruct (execute_prepared_result E (trace w1) (stmt_handle st)) as [[] res].
Qed.

Lemma stmt_Query_open_accepted (E : engine) l st args w :
  heap w !! l = Some st -> is_open st = true ->
  is_panic (stmt_Query E l args w).2 = false.
Proof.
  intros Hl Ho. unfold stmt_Query. rewrite Hl.
  unfold is_open in Ho. destruct (closed st), (rows st); try done.
  destruct (start E st args w) as [w1 [e|]]; [done|]. simpl.
  by destruct (execute_prepared_result E (trace w1) (stmt_handle st)) as [[] res].
Qed.

(** A [Query] that returns a cursor was made on an open statement; it sets
    the cursor flag and ties the cursor to the statement. *)
Lemma stmt_Query_Ok_inv (E : engine) l st args w w1 rs :
  heap w !! l = Some st ->
  stmt_Query E l args w = (w1, Ok rs) ->
  is_open st = true
  /\ heap w1 = <[l := mkStmt (stmt_handle st) false true]> (heap w)
  /\ s rs = Some l /\ is_Some (r rs).
Proof.
  intros Hl. unfold stmt_Query, is_open. rewrite Hl.
  destruct (closed st) eqn:Hc; [done|]. destruct (rows st) eqn:Hr; [done|].
  pose proof (start_heap E st args w) as Hh.
  destruct (start E st args w) as [w0 [e|]]; [done|]. simpl in *.
  destruct (execute_prepared_result E (trace w0) (stmt_handle st)) as [[] res];
    [|done].
  intros [= <- <-]. simpl. rewrite Hh. by eauto.
Qed.

(** [Close] on an open statement: the closed flag is set, the handle is
    released with one native call, and from then on [Close], [Exec] and
    [Query] are refused. *)
Lemma stmt_Close_open (E : engine) (l : nat) (st : stmt) (w : world) :
  heap w !! l = Some st -> is_open st = true ->
  let w' := mkWorld (<[l := mkStmt (stmt_handle st) true false]> (heap w))
                    (trace w ++ [duckdb_destroy_prepare (stmt_handle st)]) in
  stmt_Close l w = (w', Ok tt)
  /\ stmt_Close l w'
     = (w', Err (errorNew (str "database/sql/driver: misuse of duckdb driver: double Close of Stmt")))
  /\ (forall args,
        stmt_Exec E l args w'
        = (w', Panic (str "database/sql/driver: misuse of duckdb driver: Exec after Close"))
        /\ stmt_Query E l args w'
           = (w', Panic (str "database/sql/driver: misuse of duckdb driver: Query after Close"))).
Proof.
  intros Hl Ho w'. pose proof (lookup_lt_Some _ _ _ Hl) as Hlt.
  unfold is_open in Ho. destruct (closed st) eqn:Hc, (rows st) eqn:Hr; try done.
  assert (heap w' !! l = Some (mkStmt (stmt_handle st) true false)) as Hl'
    by (by apply list_lookup_insert_eq).
  split; [|split].
  - unfold stmt_Close. by rewrite Hl, Hr, Hc.
  - unfold stmt_Close. by rewrite Hl'.
  - intros args. unfold stmt_Exec, stmt_Query. by rewrite Hl'.
Qed.

(** C6: the statement state machine.  [Close] is refused with an open cursor
    and on a closed statement; [Exec] and [Query] panic on a closed statement
    and with an open cursor.  [Close] on an open statement returns nil, sets
    the closed flag and releases the handle with one native call, so that a
    second [Close] is refused and [Exec] and [Query] panic.  After a [Query]
    that returned a cursor, closing the cursor clears the flag, and then
    [Exec] and [Query] are accepted and [Close] succeeds, once. *)
Theorem stmt_state_machine (E : engine) (l : nat) (st : stmt) (w : world) :
  heap w !! l = Some st ->
  (rows st = true ->
     stmt_Close l w
     = (w, Err (errorNew (str "database/sql/driver: misuse of duckdb driver: Close with active Rows"))))
  /\ (rows st = false -> closed st = true ->
     stmt_Close l w
     = (w, Err (errorNew (str "database/sql/driver: misuse of duckdb driver: double Close of Stmt"))))
  /\ (closed st = true \/ rows st = true ->
      forall args,
        (exists m, stmt_Exec E l args w = (w, Panic m))
        /\ (exists m, stmt_Query E l args w = (w, Panic m)))
  /\ (is_open st = true ->
      let w' := mkWorld (<[l := mkStmt (stmt_handle st) true false]> (heap w))
                        (trace w ++ [duckdb_destroy_prepare (stmt_handle st)]) in
      stmt_Close l w = (w', Ok tt)
      /\ stmt_Close l w'
         = (w', Err (errorNew (str "database/sql/driver: misuse of duckdb driver: double Close of Stmt")))
      /\ (forall args,
            stmt_Exec E l args w'
            = (w', Panic (str "database/sql/driver: misuse of duckdb driver: Exec after Close"))
            /\ stmt_Query E l args w'
               = (w', Panic (str "database/sql/driver: misuse of duckdb driver: Query after Close"))))
  /\ (forall args w1 rs,
        stmt_Query E l args w = (w1, Ok rs) ->
        let after := rows_Close rs w1 in
        let w2 := after.1.2 in
        let w3 := mkWorld (<[l := mkStmt (stmt_handle st) true false]> (heap w2))
                          (trace w2 ++ [duckdb_destroy_prepare (stmt_handle st)]) in
        heap w1 !! l = Some (mkStmt (stmt_handle st) false true)
        /\ after.2 = Ok tt
        /\ heap w2 !! l = Some (mkStmt (stmt_handle st) false false)
        /\ (forall args',
              is_panic (stmt_Exec E l args' w2).2 = false
              /\ is_panic (stmt_Query E l args' w2).2 = false)
        /\ stmt_Close l w2 = (w3, Ok tt)
        /\ stmt_Close l w3
           = (w3, Err (errorNew (str "database/sql/driver: misuse of duckdb driver: double Close of Stmt")))).
Proof.
  intros Hl. pose proof (lookup_lt_Some _ _ _ Hl) as Hlt.
  split; [|split; [|split; [|split]]].
  - intros Hr. unfold stmt_Close. by rewrite Hl, Hr.
  - intros Hr Hc. unfold stmt_Close. by rewrite Hl, Hr, Hc.
  - intros Hcr args. unfold stmt_Exec, stmt_Query. rewrite Hl.
    destruct (closed st); [by eauto|].
    destruct (rows st); [by eauto|]. by destruct Hcr.
  - intros Ho. by apply stmt_Close_open.
  - intros args w1 rs HQ.
    destruct (stmt_Query_Ok_inv E l st args w w1 rs Hl HQ) as (Ho & Hh & Hs & [res Hres]).
    assert (heap w1 !! l = Some (mkStmt (stmt_handle st) false true)) as Hl1.
    { rewrite Hh. by apply list_lookup_insert_eq. }
    assert (heap (rows_Close rs w1).1.2 !! l = Some (mkStmt (stmt_handle st) false false)) as Hl2.
    { unfold rows_Close. rewrite Hres, Hs. simpl.
      by rewrite list_lookup_alter_eq, Hl1. }
    intros after w2 w3. split; [done|]. split.
    { subst after. unfold rows_Close. by rewrite Hres, Hs. }
    split; [done|]. split.
    { intros args'. split.
      - by eapply stmt_Exec_open_accepted.
      - by eapply stmt_Query_open_accepted. }
    destruct (stmt_Close_open E l (mkStmt (stmt_handle st) false false) w2 Hl2 eq_refl)
      as (Hc1 & Hc2 & _).
    by split.
Qed.

Lemma stmt_state_machine_witness :
  let w1 := (stmt_Query good_engine 0 [VInt64 1] one_stmt).1 in
  let w2 := (rows_Close (mkRows (Some users_result) (Some 0%nat) 0) w1).1.2 in
  let w3 := mkWorld [mkStmt 7 true false]
              (trace w2 ++ [duckdb_destroy_prepare 7]) in
  (exists m, stmt_Query good_engine 0 [VInt64 1] w1 = (w1, Panic m))
  /\ stmt_Close 0 w1
     = (w1, Err (errorNew (str "database/sql/driver: misuse of duckdb driver: Close with active Rows")))
  /\ stmt_Close 0 w2 = (w3, Ok tt)
  /\ stmt_Close 0 w3
     = (w3, Err (errorNew (str "database/sql/driver: misuse of duckdb driver: double Close of Stmt")))
  /\ stmt_Close 0 one_stmt
     = (mkWorld [mkStmt 7 true false] [duckdb_destroy_prepare 7], Ok tt).
Proof.
  intros w1 w2 w3.
  destruct (stmt_state_machine good_engine 0 (mkStmt 7 false true) w1 eq_refl)
    as (Hclose & _ & Hpanic & _).
  destruct (stmt_state_machine good_engine 0 (mkStmt 7 false false) one_stmt eq_refl)
    as (_ & _ & _ & Hopen & Hcycle).
  destruct (Hcycle [VInt64 1] w1 (mkRows (Some users_result) (Some 0%nat) 0) eq_refl)
    as (_ & _ & _ & _ & Hc1 & Hc2).
  split; [exact (proj2 (Hpanic (or_intror eq_refl) [VInt64 1]))|].
  split; [exact (Hclose eq_refl)|].
  split; [exact Hc1|]. split; [exact Hc2|].
  exact (proj1 (Hopen eq_refl)).
Defined.

(** C8: with an argument list whose length differs from the parameter count,
    [start] returns the count error, naming the number of arguments and the
    parameter count, and leaves the world, trace included, untouched: no bind
    call is made; with a placeholder count that differs from the number of
    arguments, [interpolateParams] returns [driver.ErrSkip]. *)
Theorem arity_mismatch (E : engine) (FormatFloat : Z -> gostring)
    (st : stmt) (query : gostring) (args : list Value) (w : world) :
  (NumInput E st w <> Z.of_nat (length args) ->
     start E st args w
     = (w, Some (errorNew
          (str "incorrect argument count for command: have "
           ++ FormatInt (Z.of_nat (length args)) ++ str " want "
           ++ FormatInt (NumInput E st w)))))
  /\ (Count query QMARK <> length args ->
      interpolateParams FormatFloat query args = Err ErrSkip).
Proof.
  split; intros H.
  - unfold start. by rewrite decide_True.
  - unfold interpolateParams. by rewrite decide_True.
Qed.

Lemma arity_mismatch_witness :
  start good_engine (mkStmt 7 false false) [VInt64 1; VInt64 2] one_stmt
  = (one_stmt, Some (errorNew (str "incorrect argument count for command: have 2 want 1")))
  /\ interpolateParams FormatFloat_zero (str "a = ? AND b = ?") [VInt64 1] = Err ErrSkip.
Proof.
  split.
  - apply (arity_mismatch good_engine FormatFloat_zero (mkStmt 7 false false)
             (str "a = ? AND b = ?") [VInt64 1; VInt64 2] one_stmt).
    vm_compute. discriminate.
  - apply (arity_mismatch good_engine FormatFloat_zero (mkStmt 7 false false)
             (str "a = ? AND b = ?") [VInt64 1] one_stmt).
    vm_compute. discriminate.
Defined.

(** ** The interpolator *)

Lemma Count_app (a b : gostring) (c : ascii) :
  Count (a ++ b) c = (Count a c + Count b c)%nat.
Proof.
  induction a as [|x a IH]; simpl; [done|].
  destruct (Ascii.eqb x c); simpl; by rewrite IH.
Qed.

Lemma IndexByte_ge (x : gostring) (c : ascii) : -1 <= IndexByte x c.
Proof.
  induction x as [|a x IH]; simpl; [lia|].
  destruct (Ascii.eqb a c); [lia|].
  destruct (IndexByte x c =? -1) eqn:Hq; lia.
Qed.

Lemma IndexByte_absent (x : gostring) (c : ascii) :
  IndexByte x c = -1 <-> Count x c = O.
Proof.
  induction x as [|a x IH]; simpl; [done|].
  destruct (Ascii.eqb a c); [split; [lia|done]|].
  pose proof (IndexByte_ge x c).
  destruct (IndexByte x c =? -1) eqn:Hq.
  - apply Z.eqb_eq in Hq. split; intros _; [by apply IH|done].
  - apply Z.eqb_neq in Hq. split; [lia|]. intros Hc. apply IH in Hc. lia.
Qed.

(** A found index splits the string around the first occurrence. *)
Lemma IndexByte_found (x : gostring) (c : ascii) :
  IndexByte x c <> -1 ->
  let q := Z.to_nat (IndexByte x c) in
  x = take q x ++ c :: drop (S q) x /\ Count (take q x) c = O.
Proof.
  induction x as [|a x IH]; simpl; [done|].
  destruct (Ascii.eqb a c) eqn:Hac.
  - apply Ascii.eqb_eq in Hac as ->. intros _. simpl. by rewrite drop_0.
  - pose proof (IndexByte_ge x c).
    destruct (IndexByte x c =? -1) eqn:Hq; [done|].
    apply Z.eqb_neq in Hq. intros _.
    replace (Z.to_nat (IndexByte x c + 1)) with (S (Z.to_nat (IndexByte x c))) by lia.
    destruct (IH Hq) as [Hx Hc]. simpl. rewrite Hac. split; [|done].
    f_equal. exact Hx.
Qed.

Lemma substitute_nil (query : gostring) : substitute query [] = query.
Proof.
  induction query as [|c query IH]; simpl; [done|].
  destruct (Ascii.eqb c QMARK); by rewrite IH.
Qed.

Lemma substitute_plain (pre rest : gostring) (lits : list gostring) :
  Count pre QMARK = O ->
  substitute (pre ++ rest) lits = pre ++ substitute rest lits.
Proof.
  induction pre as [|c pre IH]; simpl; [done|].
  destruct (Ascii.eqb c QMARK); [done|]. intros H. by rewrite IH.
Qed.

Lemma substitute_placeholder (rest lit : gostring) (lits : list gostring) :
  substitute (QMARK :: rest) (lit :: lits) = lit ++ substitute rest lits.
Proof. reflexivity. Qed.

(** What is left of the query and of the arguments determines the rest of
    the loop: with as many placeholders left as arguments, it ends with the
    substituted text, or with [ErrSkip] at the first argument without a
    rule. *)
Lemma interpolate_loop_spec FormatFloat (query : gostring) (args : list Value) :
  forall (fuel i : nat) (buf : gostring) (argPos : nat),
    (length query - i < fuel)%nat ->
    (argPos <= length args)%nat ->
    Count (drop i query) QMARK = length (drop argPos args) ->
    interpolate_loop FormatFloat fuel query args i buf argPos
    = match literals FormatFloat (drop argPos args) with
      | Some lits => Ok (buf ++ substitute (drop i query) lits, length args)
      | None => Err ErrSkip
      end.
Proof.
  induction fuel as [|fuel IH]; intros i buf argPos Hfuel Hpos Hcount; [lia|].
  simpl. case_decide as Hi.
  - destruct (IndexByte (drop i query) QMARK =? -1) eqn:Hq.
    + apply Z.eqb_eq, IndexByte_absent in Hq.
      rewrite Hq in Hcount.
      destruct (drop argPos args) as [|a rest] eqn:Hd; [|done].
      simpl. rewrite substitute_nil.
      assert (argPos = length args) as ->; [|done].
      apply (f_equal length) in Hd. rewrite length_drop in Hd. simpl in Hd. lia.
    + apply Z.eqb_neq in Hq.
      destruct (IndexByte_found _ _ Hq) as [Hsplit Hpre].
      set (q := Z.to_nat (IndexByte (drop i query) QMARK)) in *.
      rewrite drop_drop in Hsplit.
      assert (Count (drop i query) QMARK = S (Count (drop (S (i + q)) query) QMARK)) as Hc.
      { rewrite Hsplit at 1. rewrite Count_app, Hpre. simpl.
        replace (i + S q)%nat with (S (i + q)) by lia. done. }
      rewrite Hc in Hcount.
      destruct (args !! argPos) as [arg|] eqn:Harg.
      2:{ apply lookup_ge_None in Harg. rewrite (drop_ge args) in Hcount by lia. done. }
      rewrite (drop_S _ _ _ Harg) in Hcount |- *. simpl in Hcount. simpl.
      destruct (appendArg FormatFloat arg) as [lit|]; [|done].
      rewrite IH; [|lia|by (apply lookup_lt_Some in Harg; lia)|lia].
      destruct (literals FormatFloat (drop (S argPos) args)) as [lits|]; [|done].
      f_equal. f_equal. rewrite Hsplit at 2.
      rewrite substitute_plain by done. rewrite substitute_placeholder.
      replace (i + S q)%nat with (S (i + q)) by lia.
      by rewrite <- !app_assoc.
  - rewrite (drop_ge query) in Hcount |- * by lia. simpl in Hcount.
    destruct (drop argPos args) as [|a rest] eqn:Hd; [|done].
    simpl. rewrite app_nil_r.
    assert (argPos = length args) as ->; [|done].
    apply (f_equal length) in Hd. rewrite length_drop in Hd. simpl in Hd. lia.
Qed.

(** [interpolateParams] as a whole. *)
Lemma interpolateParams_spec FormatFloat (query : gostring) (args : list Value) :
  interpolateParams FormatFloat query args
  = if decide (Count query QMARK = length args) then
      match literals FormatFloat args with
      | Some lits => Ok (substitute query lits)
      | None => Err ErrSkip
      end
    else Err ErrSkip.
Proof.
  unfold interpolateParams. case_decide as Hc; case_decide as Hc'; try done.
  rewrite interpolate_loop_spec; try (rewrite ?drop_0; simpl; lia).
  rewrite drop_0. destruct (literals FormatFloat args) as [lits|]; [|done].
  by rewrite decide_False by auto.
Qed.

Lemma appendArg_supported FormatFloat (a : Value) :
  supported_kind a = true -> float_contract FormatFloat a ->
  exists lit, appendArg FormatFloat a = Some lit /\ literal_of a lit.
Proof.
  destruct a as [| | | | |f|b| | | |]; simpl; try done; intros _ Hf;
    try (eexists; split; [reflexivity|by constructor]).
  destruct b; eexists; (split; [reflexivity|constructor]).
Qed.

Lemma appendArg_total FormatFloat (a : Value) :
  supported_kind a = true -> is_Some (appendArg FormatFloat a).
Proof. destruct a; simpl; try done; by eauto. Qed.

Lemma appendArg_unsupported FormatFloat (a : Value) :
  supported_kind a = false -> appendArg FormatFloat a = None.
Proof. by destruct a. Qed.

Lemma literals_supported FormatFloat (args : list Value) :
  Forall (fun a => supported_kind a = true) args ->
  Forall (float_contract FormatFloat) args ->
  exists lits, literals FormatFloat args = Some lits
               /\ Forall2 literal_of args lits.
Proof.
  induction 1 as [|a args Ha _ IH]; intros Hc.
  - exists []. by split; [|constructor].
  - apply Forall_cons in Hc as [Hca Hc]. destruct (IH Hc) as (lits & Hl & HF).
    destruct (appendArg_supported FormatFloat a Ha Hca) as (lit & Hlit & Hof).
    exists (lit :: lits). simpl. rewrite Hlit, Hl. by split; [|constructor].
Qed.

Lemma literals_total FormatFloat (args : list Value) :
  Forall (fun a => supported_kind a = true) args ->
  is_Some (literals FormatFloat args).
Proof.
  induction 1 as [|a args Ha _ [lits Hl]]; [by eexists|].
  destruct (appendArg_total FormatFloat a Ha) as [lit Hlit].
  exists (lit :: lits). simpl. by rewrite Hlit, Hl.
Qed.

Lemma literals_unsupported FormatFloat (args : list Value) (v : Value) :
  In v args -> supported_kind v = false -> literals FormatFloat args = None.
Proof.
  induction args as [|a args IH]; simpl; [done|].
  intros [->|Hin] Hv.
  - by rewrite appendArg_unsupported.
  - destruct (appendArg FormatFloat a); [|done]. by rewrite IH.
Qed.

Lemma Count_substitute (query : gostring) : forall lits : list gostring,
  Count query QMARK = length lits ->
  Count (substitute query lits) QMARK = total_count lits QMARK.
Proof.
  induction query as [|c query IH]; intros lits; simpl.
  - by destruct lits.
  - destruct (Ascii.eqb c QMARK) eqn:Hc.
    + destruct lits as [|lit lits]; simpl; [done|]. intros [= H].
      by rewrite Count_app, IH.
    + intros H. simpl. by rewrite Hc, IH.
Qed.

(** No decimal rendering of an integer has a question mark. *)
Lemma Count_string_of_uint (u : Decimal.uint) :
  Count (list_ascii_of_string (NilEmpty.string_of_uint u)) QMARK = O.
Proof. induction u; simpl; done. Qed.

Lemma Count_FormatInt (v : Z) : Count (FormatInt v) QMARK = O.
Proof.
  unfold FormatInt.
  destruct (Z.to_int v) as [u|u]; simpl.
  - destruct u; try apply (Count_string_of_uint (_ _)). done.
  - destruct u; try apply (Count_string_of_uint (_ _)). done.
Qed.

(** [escapeValue] rewrites byte by byte. *)
Lemma escapeValue_loop_concat (v : gostring) : forall buf,
  escapeValue_loop v buf = buf ++ concat (map escapeByte v).
Proof.
  induction v as [|c v IH]; intros buf; simpl; [by rewrite app_nil_r|].
  by rewrite IH, <- app_assoc.
Qed.

Lemma escapeValue_concat (v : gostring) : escapeValue v = concat (map escapeByte v).
Proof. unfold escapeValue. by rewrite escapeValue_loop_concat. Qed.

(** The seven special bytes are written as a sequence that starts with a
    backslash; every other byte is copied. *)
Lemma escapeByte_cases (c : ascii) :
  if special c then exists rest, escapeByte c = BACKSLASH :: rest
  else escapeByte c = [c].
Proof.
  destruct c as [[] [] [] [] [] [] [] []]; vm_compute; by eauto.
Qed.

Lemma Count_escapeByte (c : ascii) :
  Count (escapeByte c) QMARK = Count [c] QMARK.
Proof. destruct c as [[] [] [] [] [] [] [] []]; reflexivity. Qed.

Lemma Count_escapeValue (x : gostring) :
  Count (escapeValue x) QMARK = Count x QMARK.
Proof.
  rewrite escapeValue_concat.
  induction x as [|c x IH]; simpl; [done|].
  rewrite Count_app, IH, Count_escapeByte. simpl.
  by destruct (Ascii.eqb c QMARK).
Qed.

(** A decimal text has no question mark: the reader accepts digits, a
    minus, a point and an exponent only. *)
Lemma digit_of_not_QMARK (c : ascii) (d : Z) :
  digit_of c = Some d -> Ascii.eqb c QMARK = false.
Proof. destruct c as [[] [] [] [] [] [] [] []]; vm_compute; congruence. Qed.

Lemma read_digits_Count (x : gostring) : forall acc n,
  Count (read_digits x acc n).2 QMARK = Count x QMARK.
Proof.
  induction x as [|c x IH]; intros acc n; simpl; [done|].
  destruct (digit_of c) as [d|] eqn:Hd; [|done].
  by rewrite IH, (digit_of_not_QMARK c d Hd).
Qed.

Lemma parse_exponent_Count (x : gostring) (ex : Z) :
  parse_exponent x = Some ex -> Count x QMARK = O.
Proof.
  destruct x as [|e [|sg ds]]; simpl; try done.
  destruct (Ascii.eqb e "e"%char) eqn:He; [|done].
  apply Ascii.eqb_eq in He as ->.
  pose proof (read_digits_Count ds 0 0) as Hc.
  destruct (read_digits ds 0 0) as [[v n] rest]. simpl in Hc.
  destruct n as [|n]; [done|]. destruct rest; [|done]. simpl in Hc.
  destruct (Ascii.eqb sg "+"%char) eqn:Hp.
  - apply Ascii.eqb_eq in Hp as ->. by intros _.
  - destruct (Ascii.eqb sg "-"%char) eqn:Hm; [|done].
    apply Ascii.eqb_eq in Hm as ->. by intros _.
Qed.

Lemma parse_decimal_Count (text : gostring) (d : bool * Z * Z) :
  parse_decimal text = Some d -> Count text QMARK = O.
Proof.
  unfold parse_decimal.
  assert (exists neg body,
            match text with
            | c :: rest => if Ascii.eqb c "-"%char then (true, rest) else (false, text)
            | [] => (false, text)
            end = (neg, body) /\ Count text QMARK = Count body QMARK)
    as (neg & body & -> & ->).
  { destruct text as [|c rest]; [by exists false, []|].
    destruct (Ascii.eqb c "-"%char) eqn:Hc.
    - apply Ascii.eqb_eq in Hc as ->. by exists true, rest.
    - by exists false, (c :: rest). }
  pose proof (read_digits_Count body 0 0) as Hint.
  destruct (read_digits body 0 0) as [[ip n1] after_int]. simpl in Hint.
  rewrite <- Hint. destruct n1 as [|n1]; [done|].
  assert (exists D nf after_frac,
            match after_int with
            | c :: rest =>
                if Ascii.eqb c "."%char then read_digits rest ip 0
                else (ip, O, after_int)
            | [] => (ip, O, after_int)
            end = (D, nf, after_frac)
            /\ Count after_int QMARK = Count after_frac QMARK)
    as (D & nf & after_frac & -> & ->).
  { destruct after_int as [|c rest]; [by exists ip, O, []|].
    destruct (Ascii.eqb c "."%char) eqn:Hc.
    - apply Ascii.eqb_eq in Hc as ->.
      pose proof (read_digits_Count rest ip 0) as Hf.
      destruct (read_digits rest ip 0) as [[D nf] after_frac]. simpl in Hf.
      exists D, nf, after_frac. by rewrite Hf.
    - by exists ip, O, (c :: rest). }
  assert (forall o : option (bool * Z * Z),
            o = ((fun ex => (neg, D, ex - Z.of_nat nf)) <$> parse_exponent after_frac) ->
            o = Some d -> Count after_frac QMARK = O) as Hex.
  { intros o -> Ho. destruct (parse_exponent after_frac) as [ex|] eqn:Hp; [|done].
    by eapply parse_exponent_Count. }
  destruct after_int as [|c rest]; [by eapply Hex|].
  destruct nf as [|nf]; [|by eapply Hex].
  destruct (Ascii.eqb c "."%char); [done|by eapply Hex].
Qed.

Lemma shortest_decimal_Count (bits : Z) (text : gostring) :
  shortest_decimal bits text -> Count text QMARK = O.
Proof.
  unfold shortest_decimal. destruct (classify bits) as [|neg|neg|neg m e].
  - by intros ->.
  - intros ->. by destruct neg.
  - intros ->. by destruct neg.
  - intros (D & k & Hp & _). by eapply parse_decimal_Count.
Qed.

Lemma Count_literal (a : Value) (lit : gostring) :
  literal_of a lit -> qfree a -> Count lit QMARK = O.
Proof.
  destruct 1 as [| | | | |f text Hf| | | |x]; simpl; intros Hq;
    try done; try apply Count_FormatInt.
  - by eapply shortest_decimal_Count.
  - change (Count (escapeValue x ++ [SQUOTE]) QMARK = O).
    by rewrite Count_app, Count_escapeValue, Hq.
Qed.

Lemma total_count_literals (args : list Value) (lits : list gostring) :
  Forall2 literal_of args lits ->
  Forall qfree args -> total_count lits QMARK = O.
Proof.
  induction 1 as [|a lit args lits Ha _ IH]; [done|].
  intros HF. apply Forall_cons in HF as [Hq HF]. simpl.
  by rewrite (Count_literal _ _ Ha Hq), IH.
Qed.

Lemma Count_literal_text (a : Value) (lit : gostring) :
  literal_of a lit -> Count lit QMARK = question_marks a.
Proof.
  destruct 1 as [| | | | |f text Hf| | | |x]; simpl;
    try done; try apply Count_FormatInt.
  - by eapply shortest_decimal_Count.
  - change (Count (escapeValue x ++ [SQUOTE]) QMARK = Count x QMARK).
    rewrite Count_app, Count_escapeValue. simpl. lia.
Qed.

Lemma total_count_question_marks (args : list Value) (lits : list gostring) :
  Forall2 literal_of args lits ->
  total_count lits QMARK = sum_list (question_marks <$> args).
Proof.
  induction 1 as [|a lit args lits Ha _ IH]; [done|].
  simpl. by rewrite (Count_literal_text _ _ Ha), IH.
Qed.

Lemma FormatInt_nonempty (v : Z) : (1 <= length (FormatInt v))%nat.
Proof.
  unfold FormatInt. destruct (Z.to_int v) as [u|u]; destruct u; simpl; lia.
Qed.

(** 0.5 is written [0.5]: one significant digit, and no decimal has
    fewer. *)
Lemma shortest_decimal_half : shortest_decimal 4602678819172646912 (str "0.5").
Proof.
  exists 5, (-1). split; [reflexivity|]. split; [reflexivity|].
  intros D' k' _ Hlen. pose proof (FormatInt_nonempty D') as Hpos.
  change (significant_digits 5) with 1%nat in Hlen. lia.
Qed.

(** C7, as the code has it: with as many arguments as placeholders, all of
    supported kinds, [interpolateParams] succeeds with the query in which the
    placeholders are replaced, left to right, by the literals of the
    arguments, one each: NULL for nil, the decimal text of an integer, 1 or 0
    for a boolean, the Unix seconds of a time, the shortest round-trippable
    decimal of a float (the float formatter of the Go library being taken
    under this contract), the quoted escaped value of a text.  The question
    marks left are those of the text arguments, none when no text argument
    holds one.  With another number of arguments the answer is
    [driver.ErrSkip]. *)
Theorem interpolateParams_substitutes (FormatFloat : Z -> gostring)
    (query : gostring) (args : list Value) :
  (Count query QMARK = length args ->
   Forall (fun a => supported_kind a = true) args ->
   Forall (float_contract FormatFloat) args ->
   exists lits : list gostring,
     Forall2 literal_of args lits
     /\ interpolateParams FormatFloat query args = Ok (substitute query lits)
     /\ Count (substitute query lits) QMARK = sum_list (question_marks <$> args)
     /\ (Forall qfree args -> Count (substitute query lits) QMARK = O))
  /\ (Count query QMARK <> length args ->
      interpolateParams FormatFloat query args = Err ErrSkip).
Proof.
  split.
  - intros Hc Hs Hf.
    destruct (literals_supported FormatFloat args Hs Hf) as (lits & Hl & HF).
    assert (Count query QMARK = length lits) as Hcl.
    { rewrite Hc. by eapply Forall2_length. }
    exists lits. split; [done|]. split.
    { rewrite interpolateParams_spec, decide_True by done. by rewrite Hl. }
    split.
    { rewrite Count_substitute by done. by apply total_count_question_marks. }
    intros Hq. rewrite Count_substitute by done.
    by eapply total_count_literals.
  - intros Hc. rewrite interpolateParams_spec. by rewrite decide_False.
Qed.

Lemma interpolateParams_substitutes_witness :
  (exists lits : list gostring,
     Forall2 literal_of
       [VString (str "marc"); VNil; VInt32 30; VBool true; VTime (mkTime 86400 5);
        VFloat64 4602678819172646912] lits
     /\ interpolateParams FormatFloat_half
          (str "n = ? AND m = ? AND a > ? AND f = ? AND t = ? AND h < ?")
          [VString (str "marc"); VNil; VInt32 30; VBool true; VTime (mkTime 86400 5);
           VFloat64 4602678819172646912]
        = Ok (substitute (str "n = ? AND m = ? AND a > ? AND f = ? AND t = ? AND h < ?") lits)
     /\ Count (substitute (str "n = ? AND m = ? AND a > ? AND f = ? AND t = ? AND h < ?") lits)
          QMARK = O)
  /\ interpolateParams FormatFloat_half (str "a = ?") [] = Err ErrSkip.
Proof.
  split.
  - destruct (proj1 (interpolateParams_substitutes FormatFloat_half
        (str "n = ? AND m = ? AND a > ? AND f = ? AND t = ? AND h < ?")
        [VString (str "marc"); VNil; VInt32 30; VBool true; VTime (mkTime 86400 5);
         VFloat64 4602678819172646912])
        eq_refl) as (lits & HF & Hi & _ & H0).
    + repeat constructor.
    + repeat constructor. exact shortest_decimal_half.
    + exists lits. split; [exact HF|]. split; [exact Hi|].
      apply H0. repeat constructor.
  - apply (proj2 (interpolateParams_substitutes FormatFloat_half (str "a = ?") [])).
    vm_compute. discriminate.
Defined.

(** The interpolated text of the example, the float included. *)
Example interpolateParams_with_float :
  interpolateParams FormatFloat_half (str "a > ? AND h < ?")
    [VInt32 30; VFloat64 4602678819172646912]
  = Ok (str "a > 30 AND h < 0.5").
Proof. reflexivity. Qed.

(** A query with one placeholder and one text argument: the interpolated
    text still has a question mark, the one of the argument. *)
Lemma interpolateParams_keeps_question_mark_of_text :
  Count (str "name = ?") QMARK = length [VString (str "who?")]
  /\ supported_kind (VString (str "who?")) = true
  /\ interpolateParams FormatFloat_zero (str "name = ?") [VString (str "who?")]
     = Ok (str "name = 'who?'")
  /\ Count (str "name = 'who?'") QMARK = 1%nat.
Proof. repeat split. Qed.

(** The loop of [start] over a concatenation. *)
Lemma start_loop_app (E : engine) p (pre rest : list Value) : forall i w,
  start_loop E p i (pre ++ rest) w
  = match start_loop E p i pre w with
    | (w1, None) => start_loop E p (i + length pre) rest w1
    | (w1, Some e) => (w1, Some e)
    end.
Proof.
  induction pre as [|v pre IH]; intros i w; simpl.
  - by rewrite Nat.add_0_r.
  - destruct (bind_call p i v) as [c|]; [|done].
    destruct (bind_state E (trace w) c); [|done].
    rewrite IH. by replace (i + S (length pre))%nat with (S i + length pre)%nat by lia.
Qed.

Lemma bind_call_unsupported p i (v : Value) :
  supported_kind v = false -> bind_call p i v = None.
Proof. by destruct v. Qed.

(** C9: an argument [v] of a kind outside the supported set makes both paths
    answer [driver.ErrSkip].  In [start], with the right number of arguments
    and the arguments before [v] bound, the answer comes at [v]: the world is
    the one the binds before [v] left, and nothing after [v] is bound.  In
    [interpolateParams] the answer is [ErrSkip] for every query. *)
Theorem unsupported_kind_skips (E : engine) (FormatFloat : Z -> gostring)
    (st : stmt) (pre post : list Value) (v : Value) (w w1 : world)
    (query : gostring) (args : list Value) :
  supported_kind v = false ->
  (NumInput E st w = Z.of_nat (length (pre ++ v :: post)) ->
   start_loop E (stmt_handle st) 0 pre w = (w1, None) ->
   start E st (pre ++ v :: post) w = (w1, Some ErrSkip))
  /\ (In v args -> interpolateParams FormatFloat query args = Err ErrSkip).
Proof.
  intros Hv. split.
  - intros Hn Hpre. unfold start. rewrite decide_False by (intros H; by apply H).
    rewrite start_loop_app, Hpre. simpl. by rewrite bind_call_unsupported.
  - intros Hin. rewrite interpolateParams_spec.
    case_decide; [|done]. by rewrite (literals_unsupported _ _ _ Hin Hv).
Qed.

Lemma unsupported_kind_skips_witness :
  start three_param_engine (mkStmt 7 false false)
    [VInt64 1; VBytes (str "x"); VInt64 3]
    (mkWorld [mkStmt 7 false false] [])
  = (mkWorld [mkStmt 7 false false] [duckdb_bind_int64 7 1 1], Some ErrSkip)
  /\ interpolateParams FormatFloat_zero (str "a = ? AND b = ?")
       [VInt64 1; VBytes (str "x")] = Err ErrSkip.
Proof.
  destruct (unsupported_kind_skips three_param_engine FormatFloat_zero (mkStmt 7 false false)
              [VInt64 1] [VInt64 3] (VBytes (str "x"))
              (mkWorld [mkStmt 7 false false] [])
              (mkWorld [mkStmt 7 false false] [duckdb_bind_int64 7 1 1])
              (str "a = ? AND b = ?") [VInt64 1; VBytes (str "x")] eq_refl)
    as [Hstart Hinterp].
  split.
  - exact (Hstart eq_refl eq_refl).
  - apply Hinterp. right. left. reflexivity.
Defined.

(** ** Text literals *)

Lemma after_literal_backslash_escapeByte (c : ascii) (rest : gostring) :
  c <> SQUOTE ->
  after_literal_backslash (escapeByte c ++ rest) = after_literal_backslash rest.
Proof.
  destruct c as [[] [] [] [] [] [] [] []]; intros H; try reflexivity.
  by destruct H.
Qed.

Lemma after_literal_doubling_escapeByte (c : ascii) (rest : gostring) :
  c <> SQUOTE ->
  after_literal_doubling (escapeByte c ++ rest) = after_literal_doubling rest.
Proof.
  destruct c as [[] [] [] [] [] [] [] []]; intros H; try reflexivity.
  by destruct H.
Qed.

(** The first byte [escapeByte] writes is never a quote. *)
Lemma escapeByte_head (c : ascii) :
  exists h t, escapeByte c = h :: t /\ Ascii.eqb h SQUOTE = false.
Proof.
  destruct c as [[] [] [] [] [] [] [] []]; vm_compute; by eauto.
Qed.

Lemma escapeValue_cons (c : ascii) (x : gostring) :
  escapeValue (c :: x) = escapeByte c ++ escapeValue x.
Proof. by rewrite !escapeValue_concat. Qed.

(** In both dialects the literal of a text is one whole literal exactly when
    the text has no single quote: the bytes written for a quote are two
    backslashes and the quote itself, which closes the literal. *)
Lemma text_literal_backslash (x : gostring) :
  is_literal after_literal_backslash (text_literal x)
  = bool_decide (Count x SQUOTE = O).
Proof.
  unfold text_literal, is_literal. simpl.
  induction x as [|c x IH]; [done|].
  rewrite escapeValue_cons, <- app_assoc. simpl Count.
  destruct (Ascii.eqb c SQUOTE) eqn:Hc.
  - apply Ascii.eqb_eq in Hc as ->.
    change (escapeByte SQUOTE) with [BACKSLASH; BACKSLASH; SQUOTE].
    symmetry. by rewrite bool_decide_eq_false_2; [destruct (escapeValue x)|].
  - rewrite after_literal_backslash_escapeByte; [done|].
    intros ->. by rewrite Ascii.eqb_refl in Hc.
Qed.

Lemma text_literal_doubling (x : gostring) :
  is_literal after_literal_doubling (text_literal x)
  = bool_decide (Count x SQUOTE = O).
Proof.
  unfold text_literal, is_literal. simpl.
  induction x as [|c x IH]; [done|].
  rewrite escapeValue_cons, <- app_assoc. simpl Count.
  destruct (Ascii.eqb c SQUOTE) eqn:Hc.
  - apply Ascii.eqb_eq in Hc as ->.
    change (escapeByte SQUOTE) with [BACKSLASH; BACKSLASH; SQUOTE].
    symmetry. rewrite bool_decide_eq_false_2 by done. symmetry.
    destruct x as [|c' x]; [done|].
    rewrite escapeValue_cons, <- app_assoc.
    destruct (escapeByte_head c') as (h & t & -> & Hh).
    simpl. by rewrite Hh.
  - rewrite after_literal_doubling_escapeByte; [done|].
    intros ->. by rewrite Ascii.eqb_refl in Hc.
Qed.

(** C3: for the text [a'b] the interpolator writes quote, a, backslash,
    backslash, quote, b, quote.  Each special byte is written as a sequence
    that starts with a backslash, but the one for the quote is two
    backslashes and a bare quote: read with backslash escapes, and read with
    quote doubling, the literal closes at that quote and [b'] is left over. *)
Theorem escapeValue_quote_closes_literal :
  let frag := [SQUOTE; "a"%char; BACKSLASH; BACKSLASH; SQUOTE; "b"%char; SQUOTE] in
  interpolateParams FormatFloat_zero (str "?") [VString (str "a'b")] = Ok frag
  /\ text_literal (str "a'b") = frag
  /\ escapeByte SQUOTE = [BACKSLASH; BACKSLASH; SQUOTE]
  /\ after_literal_backslash (tail frag) = Some ["b"%char; SQUOTE]
  /\ after_literal_doubling (tail frag) = Some ["b"%char; SQUOTE]
  /\ is_literal after_literal_backslash frag = false
  /\ is_literal after_literal_doubling frag = false.
Proof. repeat split. Qed.

(** ** The result cursor *)

Section RowsFacts.

Variable time_Date : Z -> Z -> Z -> Z -> Z -> Z -> Z -> Time.
Variable duckdb_from_date : Z -> duckdb_date_struct.
Variable duckdb_from_timestamp : Z -> duckdb_timestamp_struct.

Local Abbreviation decodeCell' := (decodeCell time_Date duckdb_from_date duckdb_from_timestamp).
Local Abbreviation Next_loop' := (Next_loop time_Date duckdb_from_date duckdb_from_timestamp).
Local Abbreviation rows_Next' := (rows_Next time_Date duckdb_from_date duckdb_from_timestamp).
Local Abbreviation native_row' := (native_row time_Date duckdb_from_date duckdb_from_timestamp).
Local Abbreviation after_calls' := (after_calls time_Date duckdb_from_date duckdb_from_timestamp).

Lemma decodeCell_decodable res ty w :
  decodable ty = true -> exists v, decodeCell' res ty w = Some v.
Proof. destruct ty; simpl; try done; by eauto. Qed.

(** One column of the loop, for a tag other than INVALID. *)
Lemma Next_loop_cons res cur col cols i dst :
  column_type col <> DUCKDB_TYPE_INVALID ->
  Next_loop' res cur (col :: cols) i dst
  = match decodeCell' res (column_type col) (column_data col cur) with
    | None => Next_loop' res cur cols (S i) dst
    | Some v =>
        if in_array cur && bool_decide (i < length dst)%nat then
          Next_loop' res cur cols (S i) (<[i := v]> dst)
        else (dst, Panic (str "index out of range"))
    end.
Proof. simpl. by destruct (column_type col). Qed.

(** Over columns of the decode table the loop writes one decoded cell per
    column, in column order, and ends normally. *)
Lemma Next_loop_decodable res cur cols : forall i dst,
  Forall (fun c => decodable (column_type c) = true) cols ->
  in_array cur = true ->
  (i + length cols <= length dst)%nat ->
  Next_loop' res cur cols i dst
  = (take i dst
     ++ omap (fun col => decodeCell' res (column_type col) (column_data col cur)) cols
     ++ drop (i + length cols) dst, Ok tt).
Proof.
  induction cols as [|col cols IH]; intros i dst HF Hin Hlen.
  - simpl. by rewrite Nat.add_0_r, take_drop.
  - apply Forall_cons in HF as [Hcol HF]. simpl in Hlen.
    rewrite Next_loop_cons by (intros Hty; by rewrite Hty in Hcol).
    destruct (decodeCell_decodable res _ (column_data col cur) Hcol) as [v Hv].
    simpl omap. rewrite Hv, Hin, bool_decide_eq_true_2 by lia. simpl.
    rewrite IH; [|done|done|rewrite length_insert; lia].
    f_equal.
    rewrite (take_S_r _ _ v) by (apply list_lookup_insert_eq; lia).
    rewrite take_insert_ge by lia.
    rewrite drop_insert_lt by lia.
    rewrite <- app_assoc. simpl.
    by replace (i + S (length cols))%nat with (S i + length cols)%nat by lia.
Qed.

Lemma native_row_length res k :
  Forall (fun c => decodable (column_type c) = true) (columns res) ->
  length (native_row' res k) = length (columns res).
Proof.
  unfold native_row. generalize (columns res) as cols.
  induction 1 as [|col cols Hcol _ IH]; [done|].
  destruct (decodeCell_decodable res _ (column_data col k) Hcol) as [v Hv].
  simpl. rewrite Hv. simpl. f_equal. exact IH.
Qed.

Lemma int64_small z : - 2 ^ 63 <= z < 2 ^ 63 -> int64 z = z.
Proof. intros H. unfold int64. rewrite Z.mod_small; lia. Qed.

(** A call below the row count returns that row and moves the cursor by
    one. *)
Lemma rows_Next_row rs res dst k :
  r rs = Some res ->
  Forall (fun c => decodable (column_type c) = true) (columns res) ->
  0 <= row_count res <= 2 ^ 31 ->
  length dst = length (columns res) ->
  0 <= k < row_count res ->
  rows_Next' (set_cursor rs k) dst = (set_cursor rs (k + 1), native_row' res k, Ok tt).
Proof.
  intros Hr HF Hrc Hlen Hk. unfold rows_Next. simpl. rewrite Hr.
  rewrite (int64_small (row_count res)) by lia.
  destruct (k >=? row_count res) eqn:Hge; [lia|].
  rewrite Next_loop_decodable; [|done|unfold in_array; lia|simpl; lia].
  rewrite (int64_small (k + 1)) by lia.
  unfold set_cursor, native_row. simpl. rewrite Hr.
  rewrite drop_ge by lia. by rewrite app_nil_r.
Qed.

(** A call at or past the row count reports [io.EOF] and changes nothing. *)
Lemma rows_Next_EOF rs res dst :
  r rs = Some res -> 0 <= row_count res < 2 ^ 63 ->
  row_count res <= cursor rs ->
  rows_Next' rs dst = (rs, dst, Err EOF).
Proof.
  intros Hr Hrc Hk. unfold rows_Next. rewrite Hr.
  rewrite (int64_small (row_count res)) by lia.
  destruct (cursor rs >=? row_count res) eqn:Hge; [done|lia].
Qed.

(** The cursor after [n] calls is at [n] or at the row count, whichever is
    less, and the row buffer keeps its length. *)
Lemma after_calls_state rs res dst :
  r rs = Some res -> cursor rs = 0 ->
  Forall (fun c => decodable (column_type c) = true) (columns res) ->
  0 <= row_count res <= 2 ^ 31 ->
  length dst = length (columns res) ->
  forall n : nat,
    (after_calls' n rs dst).1 = set_cursor rs (Z.min (Z.of_nat n) (row_count res))
    /\ length (after_calls' n rs dst).2 = length (columns res).
Proof.
  intros Hr Hc HF Hrc Hlen. induction n as [|n [IHrs IHlen]].
  - simpl. split; [|done]. destruct rs as [r0 s0 c0]. simpl in *. subst.
    unfold set_cursor. simpl. f_equal. lia.
  - simpl. destruct (after_calls' n rs dst) as [rs1 dst1]. simpl in *. subst rs1.
    destruct (decide (Z.of_nat n < row_count res)) as [Hlt|Hge].
    + rewrite Z.min_l by lia.
      rewrite (rows_Next_row rs res dst1 (Z.of_nat n)) by (done || lia).
      simpl. split; [f_equal; lia|by apply native_row_length].
    + rewrite Z.min_r by lia.
      rewrite (rows_Next_EOF _ res) by (done || simpl; lia).
      simpl. split; [f_equal; lia|done].
Qed.

(** A failed call leaves the cursor where it was. *)
Lemma rows_Next_failure_keeps_cursor rs dst :
  (rows_Next' rs dst).2 <> Ok tt -> (rows_Next' rs dst).1.1 = rs.
Proof.
  unfold rows_Next. destruct (r rs) as [res|]; [|done].
  destruct (cursor rs >=? int64 (row_count res)); [done|].
  by destruct (Next_loop' res (cursor rs) (columns res) 0 dst) as [dst' [[]|e|m]].
Qed.

(** A column with the INVALID tag ends the loop with the error, unless the
    loop panicked before reaching it. *)
Lemma Next_loop_invalid res cur cols col : forall i dst,
  In col cols -> column_type col = DUCKDB_TYPE_INVALID ->
  (Next_loop' res cur cols i dst).2 = Err errInvalidType
  \/ is_panic (Next_loop' res cur cols i dst).2 = true.
Proof.
  induction cols as [|c cols IH]; intros i dst Hin Hty; [done|].
  assert (column_type c = DUCKDB_TYPE_INVALID
          \/ column_type c <> DUCKDB_TYPE_INVALID) as [Hc|Hc]
    by (destruct (column_type c); (by left) || (by right)).
  - left. simpl. by rewrite Hc.
  - destruct Hin as [->|Hin]; [done|].
    rewrite Next_loop_cons by done.
    destruct (decodeCell' res (column_type c) (column_data c cur)); [|by apply IH].
    destruct (in_array cur && bool_decide (i < length dst)%nat); [by apply IH|].
    by right.
Qed.

End RowsFacts.

(** C4, as the code has it: over a result whose columns all have a tag of
    the decode table and whose row count is at most 2^31, with a row buffer
    of one slot per column, the call after [k] earlier calls, [k] below the
    row count, finds the cursor at [k], returns row [k] and moves the cursor
    to [k + 1]; every call from the row-count-th on finds the cursor at the
    row count and reports [io.EOF], leaving cursor and buffer as they
    are. *)
Theorem rows_Next_walks_rows
    (time_Date : Z -> Z -> Z -> Z -> Z -> Z -> Z -> Time)
    (duckdb_from_date : Z -> duckdb_date_struct)
    (duckdb_from_timestamp : Z -> duckdb_timestamp_struct)
    (rs : duckdbRows) (res : duckdb_result) (dst : list Value) :
  r rs = Some res -> cursor rs = 0 ->
  Forall (fun c => decodable (column_type c) = true) (columns res) ->
  0 <= row_count res <= 2 ^ 31 ->
  length dst = length (columns res) ->
  (forall k : nat, Z.of_nat k < row_count res ->
     let before := after_calls time_Date duckdb_from_date duckdb_from_timestamp k rs dst in
     cursor before.1 = Z.of_nat k
     /\ rows_Next time_Date duckdb_from_date duckdb_from_timestamp before.1 before.2
        = (set_cursor rs (Z.of_nat k + 1),
           native_row time_Date duckdb_from_date duckdb_from_timestamp res (Z.of_nat k),
           Ok tt))
  /\ (forall n : nat, row_count res <= Z.of_nat n ->
     let before := after_calls time_Date duckdb_from_date duckdb_from_timestamp n rs dst in
     cursor before.1 = row_count res
     /\ rows_Next time_Date duckdb_from_date duckdb_from_timestamp before.1 before.2
        = (before.1, before.2, Err EOF)).
Proof.
  intros Hr Hc HF Hrc Hlen.
  pose proof (after_calls_state time_Date duckdb_from_date duckdb_from_timestamp
                rs res dst Hr Hc HF Hrc Hlen) as Hstate.
  split.
  - intros k Hk before. destruct (Hstate k) as [Hrs Hl]. subst before.
    rewrite Hrs, Z.min_l by lia. split; [done|].
    by apply rows_Next_row; [| | | |lia].
  - intros n Hn before. destruct (Hstate n) as [Hrs Hl]. subst before.
    rewrite Hrs, Z.min_r by lia. split; [done|].
    apply (rows_Next_EOF _ _ _ _ res); simpl; [done|lia|lia].
Qed.

Lemma rows_Next_walks_rows_witness :
  let rs0 := mkRows (Some users_result) None 0 in
  let dst0 := [VNil; VNil; VNil] in
  let second := after_calls utc_Date from_date from_timestamp 1 rs0 dst0 in
  let fifth := after_calls utc_Date from_date from_timestamp 4 rs0 dst0 in
  (cursor second.1 = 1
   /\ rows_Next utc_Date from_date from_timestamp second.1 second.2
      = (set_cursor rs0 2,
         native_row utc_Date from_date from_timestamp users_result 1, Ok tt))
  /\ (cursor fifth.1 = 2
      /\ rows_Next utc_Date from_date from_timestamp fifth.1 fifth.2
         = (fifth.1, fifth.2, Err EOF)).
Proof.
  intros rs0 dst0 second fifth.
  destruct (rows_Next_walks_rows utc_Date from_date from_timestamp rs0 users_result dst0)
    as [Hrows Hend].
  - reflexivity.
  - reflexivity.
  - repeat constructor.
  - simpl. lia.
  - reflexivity.
  - split.
    + apply (Hrows 1%nat). simpl. lia.
    + apply (Hend 4%nat). simpl. lia.
Defined.

(** The second row of the example, decoded. *)
Example native_row_users :
  native_row utc_Date from_date from_timestamp users_result 1
  = [VString (str "macgyver"); VInt32 70; VBool true].
Proof. reflexivity. Qed.

(** A result of one row whose only column has the INVALID tag: the first
    call returns the error, not row 0.  A result of 2^31 + 1 rows: the call
    at cursor 2^31 panics on the array index. *)
Lemma rows_Next_not_every_result_walks :
  let res := mkResult 1 [mkColumn (str "c") DUCKDB_TYPE_INVALID (fun _ => 0)]
               [] 0 (fun _ => []) in
  let big := mkResult (2 ^ 31 + 1) [mkColumn (str "b") DUCKDB_TYPE_BOOLEAN (fun _ => 1)]
               [] 0 (fun _ => []) in
  (rows_Next utc_Date from_date from_timestamp (mkRows (Some res) None 0) [VNil]).2
  = Err errInvalidType
  /\ (rows_Next utc_Date from_date from_timestamp (mkRows (Some big) None (2 ^ 31)) [VNil]).2
     = Panic (str "index out of range").
Proof. split; reflexivity. Qed.

(** C5: a result with an INTEGER column and a column whose tag is outside
    the decode table (14, TIME in the header).  [Next] returns nil, moves the
    cursor to 1 and leaves the slot of the second column as it was. *)
Theorem rows_Next_skips_unnamed_tag :
  let res := mkResult 2
               [ mkColumn (str "id") DUCKDB_TYPE_INTEGER (fun k => k + 1);
                 mkColumn (str "at") (DUCKDB_TYPE_other 14) (fun _ => 43200000000) ]
               [] 0 (fun _ => []) in
  let rs := mkRows (Some res) None 0 in
  decodable (DUCKDB_TYPE_other 14) = false
  /\ (rows_Next utc_Date from_date from_timestamp rs [VNil; VNil]).2 = Ok tt
  /\ (rows_Next utc_Date from_date from_timestamp rs [VNil; VNil]).1.2 = [VInt32 1; VNil]
  /\ cursor (rows_Next utc_Date from_date from_timestamp rs [VNil; VNil]).1.1 = 1.
Proof. repeat split. Qed.

(** With the INVALID tag [Next] does fail, and the cursor stays. *)
Lemma rows_Next_invalid_tag
    (time_Date : Z -> Z -> Z -> Z -> Z -> Z -> Z -> Time)
    (duckdb_from_date : Z -> duckdb_date_struct)
    (duckdb_from_timestamp : Z -> duckdb_timestamp_struct)
    (rs : duckdbRows) (res : duckdb_result) (dst : list Value) (col : duckdb_column) :
  r rs = Some res -> cursor rs < int64 (row_count res) ->
  In col (columns res) -> column_type col = DUCKDB_TYPE_INVALID ->
  let call := rows_Next time_Date duckdb_from_date duckdb_from_timestamp rs dst in
  (call.2 = Err errInvalidType \/ is_panic call.2 = true) /\ call.1.1 = rs.
Proof.
  intros Hr Hc Hin Hty call.
  assert (call.2 = Err errInvalidType \/ is_panic call.2 = true) as Hcall.
  { subst call. unfold rows_Next. rewrite Hr.
    destruct (cursor rs >=? int64 (row_count res)) eqn:Hge; [lia|].
    pose proof (Next_loop_invalid time_Date duckdb_from_date duckdb_from_timestamp
                  res (cursor rs) (columns res) col 0 dst Hin Hty) as H.
    destruct (Next_loop _ _ _ _ _ _ _ _) as [dst' [[]|e|m]]; simpl in *;
      destruct H as [H|H]; try done; auto. }
  split; [done|].
  apply rows_Next_failure_keeps_cursor.
  unfold call in *. intros Heq.
  destruct Hcall as [H|H]; rewrite Heq in H; discriminate H.
Qed.

(** ** Further properties of the interpolator and the escaper *)

Lemma literals_Some_supported FormatFloat (args : list Value) (lits : list gostring) :
  literals FormatFloat args = Some lits ->
  Forall (fun a => supported_kind a = true) args.
Proof.
  revert lits. induction args as [|a args IH]; intros lits; simpl; [by constructor|].
  destruct (appendArg FormatFloat a) as [lit|] eqn:Ha; [|done].
  destruct (literals FormatFloat args) as [lits'|]; [|done].
  intros _. constructor; [|by eapply IH].
  destruct a; simpl in *; done.
Qed.

(** [interpolateParams] never panics and fails with [driver.ErrSkip] only; it
    succeeds exactly when the query has as many placeholders as there are
    arguments and every argument has a supported kind. *)
Theorem interpolateParams_outcome (FormatFloat : Z -> gostring)
    (query : gostring) (args : list Value) :
  match interpolateParams FormatFloat query args with
  | Ok text =>
      Count query QMARK = length args
      /\ Forall (fun a => supported_kind a = true) args
  | Err e =>
      e = ErrSkip
      /\ ~ (Count query QMARK = length args
            /\ Forall (fun a => supported_kind a = true) args)
  | Panic _ => False
  end.
Proof.
  rewrite interpolateParams_spec. case_decide as Hc.
  - destruct (literals FormatFloat args) as [lits|] eqn:Hl.
    + split; [done|]. by eapply literals_Some_supported.
    + split; [done|]. intros [_ Hs].
      destruct (literals_total FormatFloat args Hs) as [lits Hl'].
      by rewrite Hl in Hl'.
  - split; [done|]. by intros [? _].
Qed.

(** A query without placeholders, given no arguments, is interpolated to
    itself, and [Query] submits it byte for byte. *)
Theorem conn_Query_plain_query_verbatim (E : engine) (FormatFloat : Z -> gostring)
    (query : gostring) (w : world) :
  Count query QMARK = O ->
  interpolateParams FormatFloat query [] = Ok query
  /\ trace (conn_Query E FormatFloat query [] w).1 = trace w ++ [duckdb_query query].
Proof.
  intros Hc.
  assert (interpolateParams FormatFloat query [] = Ok query) as Hi.
  { rewrite interpolateParams_spec, decide_True by done. simpl.
    by rewrite substitute_nil. }
  split; [done|]. by apply conn_Query_trace.
Qed.

Lemma conn_Query_plain_query_verbatim_witness :
  interpolateParams FormatFloat_zero (str "SELECT name FROM users") []
  = Ok (str "SELECT name FROM users")
  /\ trace (conn_Query bad_engine FormatFloat_zero (str "SELECT name FROM users") []
              (mkWorld [] [])).1
     = [duckdb_query (str "SELECT name FROM users")].
Proof.
  apply (conn_Query_plain_query_verbatim bad_engine FormatFloat_zero
           (str "SELECT name FROM users") (mkWorld [] [])).
  reflexivity.
Defined.

Lemma escapeByte_length (c : ascii) :
  (1 <= length (escapeByte c) <= 3)%nat
  /\ (if special c then (2 <= length (escapeByte c))%nat else escapeByte c = [c]).
Proof.
  destruct c as [[] [] [] [] [] [] [] []]; vm_compute; (split; [lia|]); done || lia.
Qed.

Lemma escapeValue_nil : escapeValue [] = [].
Proof. reflexivity. Qed.

Lemma escapeValue_length_ge (v : gostring) : (length v <= length (escapeValue v))%nat.
Proof.
  induction v as [|c v IH]; [done|].
  rewrite escapeValue_cons, length_app. simpl.
  pose proof (escapeByte_length c) as [? _]. lia.
Qed.

(** [escapeValue] never shortens a text and at most triples it, and it
    returns the text itself exactly when the text has none of the seven
    special bytes. *)
Theorem escapeValue_length_and_fixpoints (v : gostring) :
  (length v <= length (escapeValue v) <= 3 * length v)%nat
  /\ (escapeValue v = v <-> Forall (fun c => special c = false) v).
Proof.
  split.
  - split; [apply escapeValue_length_ge|].
    induction v as [|c v IH]; [done|].
    rewrite escapeValue_cons, length_app. simpl.
    pose proof (escapeByte_length c) as [? _]. lia.
  - induction v as [|c v IH]; [by split; [constructor|]|].
    rewrite escapeValue_cons. pose proof (escapeByte_length c) as [Hlen Hsp].
    pose proof (escapeValue_length_ge v) as Hge.
    split.
    + intros Heq.
      assert (length (escapeByte c) = 1%nat) as H1.
      { apply (f_equal length) in Heq. rewrite length_app in Heq. simpl in Heq. lia. }
      destruct (special c) eqn:Hc; [lia|].
      rewrite Hsp in Heq. simpl in Heq. injection Heq as Heq.
      constructor; [done|]. by apply IH.
    + intros HF. apply Forall_cons in HF as [Hc HF].
      rewrite Hc in Hsp. rewrite Hsp. simpl. f_equal. by apply IH.
Qed.

Lemma escapeValue_app (a b : gostring) :
  escapeValue (a ++ b) = escapeValue a ++ escapeValue b.
Proof. by rewrite !escapeValue_concat, map_app, concat_app. Qed.

(** [escapeValue] works byte by byte, and it is not reversible: a NUL, a line
    feed, a carriage return and a 0x1A inside a text are written with the
    same bytes as a backslash followed by [0], [n], [r], [Z]. *)
Theorem escapeValue_collisions (a b : gostring) :
  escapeValue (a ++ b) = escapeValue a ++ escapeValue b
  /\ escapeValue (a ++ NUL :: b) = escapeValue (a ++ BACKSLASH :: "0"%char :: b)
  /\ escapeValue (a ++ LF :: b) = escapeValue (a ++ BACKSLASH :: "n"%char :: b)
  /\ escapeValue (a ++ CR :: b) = escapeValue (a ++ BACKSLASH :: "r"%char :: b)
  /\ escapeValue (a ++ SUB :: b) = escapeValue (a ++ BACKSLASH :: "Z"%char :: b).
Proof.
  split; [apply escapeValue_app|].
  repeat split; rewrite !escapeValue_app, !escapeValue_cons; reflexivity.
Qed.

(** The literal written for a text argument is one whole single-quoted
    literal exactly when the text has no single quote, whether the literal is
    read with backslash escapes or with quote doubling. *)
Theorem text_literal_whole_iff_no_quote (x : gostring) :
  is_literal after_literal_backslash (text_literal x) = bool_decide (Count x SQUOTE = O)
  /\ is_literal after_literal_doubling (text_literal x) = bool_decide (Count x SQUOTE = O)
  /\ appendArg FormatFloat_zero (VString x) = Some (text_literal x).
Proof.
  split; [apply text_literal_backslash|].
  split; [apply text_literal_doubling|reflexivity].
Qed.

(** For a time with its nanoseconds inside the second and its microsecond
    count inside [int64], the seconds the interpolator writes are the
    microseconds the binder sends, cut to whole seconds. *)
Theorem interpolated_time_is_bound_time_in_seconds (FormatFloat : Z -> gostring)
    (p : prepared) (i : nat) (t : Time) :
  0 <= nsec t < 1000000000 ->
  - 2 ^ 63 <= unixSec t * 1000000 + nsec t / 1000 < 2 ^ 63 ->
  exists us : Z,
    bind_call p i (VTime t) = Some (duckdb_bind_timestamp p (Z.of_nat i + 1) us)
    /\ appendArg FormatFloat (VTime t) = Some (FormatInt (us / 1000000))
    /\ us mod 1000000 = nsec t / 1000.
Proof.
  intros Hn Hr. exists (unixSec t * 1000000 + nsec t / 1000).
  assert (0 <= nsec t / 1000 < 1000000) as Hq.
  { split; [apply Z.div_pos; lia|apply Z.div_lt_upper_bound; lia]. }
  split; [|split].
  - simpl. unfold UnixMicro. by rewrite int64_small.
  - simpl. unfold Unix. do 2 f_equal.
    rewrite Z.add_comm, Z.div_add by lia. rewrite Z.div_small by lia. lia.
  - rewrite Z.add_comm, Z.mod_add by lia. by apply Z.mod_small.
Qed.

Lemma interpolated_time_is_bound_time_in_seconds_witness :
  exists us : Z,
    bind_call 7 0 (VTime (mkTime 1632137940 123456789))
    = Some (duckdb_bind_timestamp 7 (Z.of_nat 0 + 1) us)
    /\ appendArg FormatFloat_zero (VTime (mkTime 1632137940 123456789))
       = Some (FormatInt (us / 1000000))
    /\ us mod 1000000 = nsec (mkTime 1632137940 123456789) / 1000.
Proof.
  apply (interpolated_time_is_bound_time_in_seconds FormatFloat_zero 7 0
           (mkTime 1632137940 123456789)); vm_compute; split; congruence.
Defined.

(** ** Further properties of the binder and the statement *)




Lemma start_loop_all_bound (E : engine) p args : forall i w,
  (forall tr c, bind_state E tr c = DuckDBSuccess) ->
  Forall (fun v => is_Some (bind_call p 0 v)) args ->
  start_loop E p i args w = (mkWorld (heap w) (trace w ++ bind_calls p i args), None).
Proof.
  induction args as [|v args IH]; intros i w HE HF; simpl.
  - rewrite app_nil_r. by destruct w.
  - apply Forall_cons in HF as [[c0 Hv] HF].
    assert (exists c, bind_call p i v = Some c) as [c Hc]
      by (destruct v; simpl in Hv |- *; by eauto).
    rewrite Hc, HE, IH by done. simpl. by rewrite <- app_assoc.
Qed.

Lemma bind_calls_lookup p args : forall i j v,
  Forall (fun v => is_Some (bind_call p 0 v)) args ->
  args !! j = Some v ->
  bind_calls p i args !! j = bind_call p (i + j) v.
Proof.
  induction args as [|a args IH]; intros i j v HF Hj; [done|].
  apply Forall_cons in HF as [[c0 Ha] HF]. simpl.
  assert (exists c, bind_call p i a = Some c) as [c Hc]
    by (destruct a; simpl in Ha |- *; by eauto).
  rewrite Hc. destruct j as [|j]; simpl in *.
  - simplify_eq. by rewrite Nat.add_0_r.
  - rewrite (IH (S i) j v) by done. f_equal. lia.
Qed.

Lemma bind_calls_length p args : forall i,
  Forall (fun v => is_Some (bind_call p 0 v)) args ->
  length (bind_calls p i args) = length args.
Proof.
  induction args as [|a args IH]; intros i HF; [done|].
  apply Forall_cons in HF as [[c0 Ha] HF]. simpl.
  assert (exists c, bind_call p i a = Some c) as [c Hc]
    by (destruct a; simpl in Ha |- *; by eauto).
  rewrite Hc. simpl. by rewrite IH.
Qed.

(** With the right number of arguments, each of a kind the binder has a rule
    for, on an engine that accepts every bind, [start] succeeds after making
    exactly one bind call per argument, in argument order, argument [j] at
    parameter index [j + 1]. *)
Theorem start_binds_in_order (E : engine) (st : stmt) (args : list Value) (w : world) :
  NumInput E st w = Z.of_nat (length args) ->
  (forall tr c, bind_state E tr c = DuckDBSuccess) ->
  Forall (fun v => is_Some (bind_call (stmt_handle st) 0 v)) args ->
  start E st args w
  = (mkWorld (heap w) (trace w ++ bind_calls (stmt_handle st) 0 args), None)
  /\ length (bind_calls (stmt_handle st) 0 args) = length args
  /\ (forall j v, args !! j = Some v ->
        bind_calls (stmt_handle st) 0 args !! j = bind_call (stmt_handle st) j v).
Proof.
  intros Hn HE HF. split; [|split].
  - unfold start. rewrite decide_False by (intros H; by apply H).
    by apply start_loop_all_bound.
  - by apply bind_calls_length.
  - intros j v Hj. by rewrite (bind_calls_lookup _ _ 0 j v).
Qed.

Lemma start_binds_in_order_witness :
  start three_param_engine (mkStmt 7 false false)
    [VString (str "Kevin"); VInt64 11; VBool true] one_stmt
  = (mkWorld (heap one_stmt)
       (trace one_stmt
        ++ bind_calls 7 0 [VString (str "Kevin"); VInt64 11; VBool true]), None)
  /\ bind_calls 7 0 [VString (str "Kevin"); VInt64 11; VBool true]
     = [duckdb_bind_varchar 7 1 (str "Kevin"); duckdb_bind_int64 7 2 11;
        duckdb_bind_boolean 7 3 true].
Proof.
  split; [|reflexivity].
  apply (start_binds_in_order three_param_engine (mkStmt 7 false false)
           [VString (str "Kevin"); VInt64 11; VBool true] one_stmt).
  - reflexivity.
  - reflexivity.
  - repeat constructor; by eexists.
Defined.

(** When the engine rejects the bind of an argument, the arguments before it
    being bound, [start] returns "could not bind parameter"; the rejected
    call is the last one made and no later argument is bound. *)
Theorem start_stops_at_rejected_bind (E : engine) (st : stmt)
    (pre post : list Value) (v : Value) (c : native_call) (w w1 : world) :
  NumInput E st w = Z.of_nat (length (pre ++ v :: post)) ->
  start_loop E (stmt_handle st) 0 pre w = (w1, None) ->
  bind_call (stmt_handle st) (length pre) v = Some c ->
  bind_state E (trace w1) c = DuckDBError ->
  start E st (pre ++ v :: post) w = (call c w1, Some errCouldNotBind).
Proof.
  intros Hn Hpre Hc He. unfold start.
  rewrite decide_False by (intros H; by apply H).
  rewrite start_loop_app, Hpre. simpl. by rewrite Hc, He.
Qed.

Lemma start_stops_at_rejected_bind_witness :
  start bad_engine (mkStmt 7 false false) [VInt64 5] one_stmt
  = (call (duckdb_bind_int64 7 1 5) one_stmt, Some errCouldNotBind).
Proof.
  apply (start_stops_at_rejected_bind bad_engine (mkStmt 7 false false)
           [] [] (VInt64 5) (duckdb_bind_int64 7 1 5) one_stmt one_stmt);
    reflexivity.
Defined.

(** A nil argument has no rule in the binder: with the arguments before it
    bound, [start] answers [driver.ErrSkip] at the nil and binds nothing
    more, while the interpolator writes NULL for it. *)
Theorem start_skips_nil_argument (E : engine) (FormatFloat : Z -> gostring)
    (st : stmt) (pre post : list Value) (w w1 : world) :
  NumInput E st w = Z.of_nat (length (pre ++ VNil :: post)) ->
  start_loop E (stmt_handle st) 0 pre w = (w1, None) ->
  start E st (pre ++ VNil :: post) w = (w1, Some ErrSkip)
  /\ interpolateParams FormatFloat [QMARK] [VNil] = Ok (str "NULL").
Proof.
  intros Hn Hpre. split; [|reflexivity].
  unfold start. rewrite decide_False by (intros H; by apply H).
  by rewrite start_loop_app, Hpre.
Qed.

Lemma start_skips_nil_argument_witness :
  start good_engine (mkStmt 7 false false) [VNil] one_stmt = (one_stmt, Some ErrSkip)
  /\ interpolateParams FormatFloat_zero [QMARK] [VNil] = Ok (str "NULL").
Proof.
  apply (start_skips_nil_argument good_engine FormatFloat_zero (mkStmt 7 false false)
           [] [] one_stmt one_stmt); reflexivity.
Defined.

(** ** Invariants of the statements of a connection *)

Lemma evolves_refl (st : stmt) : evolves st st.
Proof. by repeat split. Qed.

Lemma evolves_trans (a b c : stmt) : evolves a b -> evolves b c -> evolves a c.
Proof.
  intros (H1 & H2 & H3) (H4 & H5 & H6). repeat split; [congruence|by auto|by auto].
Qed.

Lemma list_alter_as_insert {A : Type} (f : A -> A) (l : list A) : forall i x,
  l !! i = Some x -> alter f i l = <[i := f x]> l.
Proof.
  induction l as [|a l IH]; intros [|i] x Hx; simpl in *; try done.
  - by simplify_eq.
  - f_equal. by apply IH.
Qed.

Lemma list_alter_absent {A : Type} (f : A -> A) (l : list A) : forall i,
  l !! i = None -> alter f i l = l.
Proof.
  induction l as [|a l IH]; intros [|i] Hx; simpl in *; try done.
  f_equal. by apply IH.
Qed.

(** What one operation does to the heap: [Prepare] appends an open
    statement; every other operation leaves the heap or rewrites one
    statement in the way [evolves] allows. *)
Lemma run_op_heap (E : engine) (FormatFloat : Z -> gostring) (o : driver_op) (w : world) :
  match o with
  | op_conn_Prepare _ =>
      exists p, heap (run_op E FormatFloat o w) = heap w ++ [mkStmt p false false]
  | _ =>
      heap (run_op E FormatFloat o w) = heap w
      \/ exists l0 st0 new,
           heap w !! l0 = Some st0 /\ evolves st0 new
           /\ heap (run_op E FormatFloat o w) = <[l0 := new]> (heap w)
  end.
Proof.
  destruct o as [l args|l args|l|rs|query args|query args|cmd]; simpl.
  - left. apply stmt_Exec_keeps_heap.
  - unfold stmt_Query. destruct (heap w !! l) as [st|] eqn:Hl; [|by left].
    destruct (closed st) eqn:Hc; [by left|]. destruct (rows st) eqn:Hr; [by left|].
    pose proof (start_heap E st args w) as Hh.
    destruct (start E st args w) as [w1 [e|]]; simpl in *; [by left|].
    right. exists l, st, (mkStmt (stmt_handle st) false true).
    split; [done|]. split; [by repeat split; simpl; rewrite ?Hc|].
    destruct (execute_prepared_result E (trace w1) (stmt_handle st)) as [[] res];
      simpl; by rewrite Hh.
  - unfold stmt_Close. destruct (heap w !! l) as [st|] eqn:Hl; [|by left].
    destruct (rows st) eqn:Hr; [by left|]. destruct (closed st) eqn:Hc; [by left|].
    right. exists l, st, (mkStmt (stmt_handle st) true false). by repeat split.
  - unfold rows_Close. destruct (r rs); [|by left]. destruct (s rs) as [l|]; [|by left].
    simpl. destruct (heap w !! l) as [st|] eqn:Hl.
    + right. exists l, st, (mkStmt (stmt_handle st) (closed st) false).
      split; [done|]. split;
        [|by apply (list_alter_as_insert
                      (fun x => mkStmt (stmt_handle x) (closed x) false) _ l st)].
      repeat split; simpl; [done|].
      unfold coherent. simpl. by rewrite andb_false_r.
    + left. by apply list_alter_absent.
  - left. unfold conn_Exec, conn_exec.
    by destruct (query_result E (trace w) query) as [[] res].
  - left. unfold conn_Query, conn_query.
    destruct (interpolateParams FormatFloat query args) as [text|e|m]; [|done|done].
    unfold conn_exec. by destruct (query_result E (trace w) text) as [[] res].
  - unfold conn_Prepare. destruct (prepare_result E (trace w) cmd) as [rv p].
    by exists p.
Qed.

(** Every statement of the heap is still there after an operation, changed
    at most as [evolves] allows. *)
Lemma run_op_keeps (E : engine) (FormatFloat : Z -> gostring) (o : driver_op)
    (w : world) (l : nat) (st : stmt) :
  heap w !! l = Some st ->
  exists st', heap (run_op E FormatFloat o w) !! l = Some st' /\ evolves st st'.
Proof.
  intros Hl. pose proof (run_op_heap E FormatFloat o w) as Hshape.
  assert (heap (run_op E FormatFloat o w) = heap w
          \/ (exists l0 st0 new,
                heap w !! l0 = Some st0 /\ evolves st0 new
                /\ heap (run_op E FormatFloat o w) = <[l0 := new]> (heap w))
          \/ exists p, heap (run_op E FormatFloat o w) = heap w ++ [mkStmt p false false])
    as [->|[(l0 & st0 & new & Hl0 & Hev & ->)|[p ->]]].
  { destruct o; try (destruct Hshape as [?|?]; by auto). by right; right. }
  - exists st. split; [done|apply evolves_refl].
  - destruct (decide (l = l0)) as [->|Hne].
    + exists new. rewrite list_lookup_insert_eq by (by eapply lookup_lt_Some).
      by simplify_eq.
    + exists st. rewrite list_lookup_insert_ne by done. split; [done|apply evolves_refl].
  - exists st. rewrite lookup_app_l by (by eapply lookup_lt_Some).
    split; [done|apply evolves_refl].
Qed.

Lemma run_ops_keeps (E : engine) (FormatFloat : Z -> gostring) (ops : list driver_op) :
  forall (w : world) (l : nat) (st : stmt),
    heap w !! l = Some st ->
    exists st', heap (run_ops E FormatFloat ops w) !! l = Some st' /\ evolves st st'.
Proof.
  induction ops as [|o ops IH]; intros w l st Hl; simpl.
  - exists st. split; [done|apply evolves_refl].
  - destruct (run_op_keeps E FormatFloat o w l st Hl) as (st1 & Hl1 & Hev1).
    destruct (IH _ l st1 Hl1) as (st2 & Hl2 & Hev2).
    exists st2. split; [done|by eapply evolves_trans].
Qed.

(** Closed is final: once a statement is closed, after any sequence of
    operations on the connection's statements and cursors it is still
    closed, with the same handle, and [Close], [Exec] and [Query] on it are
    refused and leave the world as it is. *)
Theorem closed_statement_stays_closed (E : engine) (FormatFloat : Z -> gostring)
    (ops : list driver_op) (w : world) (l : nat) (st : stmt) :
  heap w !! l = Some st -> closed st = true ->
  let w' := run_ops E FormatFloat ops w in
  (exists st', heap w' !! l = Some st' /\ closed st' = true
               /\ stmt_handle st' = stmt_handle st)
  /\ (exists e, stmt_Close l w' = (w', Err e))
  /\ (forall args, exists m, stmt_Exec E l args w' = (w', Panic m))
  /\ (forall args, exists m, stmt_Query E l args w' = (w', Panic m)).
Proof.
  intros Hl Hc w'.
  destruct (run_ops_keeps E FormatFloat ops w l st Hl) as (st' & Hl' & Hh & Hc' & _).
  fold w' in Hl'. specialize (Hc' Hc).
  split; [by exists st'|]. split; [|split].
  - unfold stmt_Close. rewrite Hl', Hc'. destruct (rows st'); by eauto.
  - intros args. unfold stmt_Exec. rewrite Hl', Hc'. by eauto.
  - intros args. unfold stmt_Query. rewrite Hl', Hc'. by eauto.
Qed.

Lemma closed_statement_stays_closed_witness :
  let w' := run_ops good_engine FormatFloat_zero
              [op_conn_Prepare (str "SELECT 1");
               op_rows_Close (mkRows (Some users_result) (Some 0%nat) 0);
               op_stmt_Query 0 [VInt64 1]]
              (mkWorld [mkStmt 7 true false] []) in
  (exists st', heap w' !! 0%nat = Some st' /\ closed st' = true
               /\ stmt_handle st' = 7)
  /\ (exists e, stmt_Close 0 w' = (w', Err e))
  /\ (forall args, exists m, stmt_Exec good_engine 0 args w' = (w', Panic m))
  /\ (forall args, exists m, stmt_Query good_engine 0 args w' = (w', Panic m)).
Proof.
  apply (closed_statement_stays_closed good_engine FormatFloat_zero
           [op_conn_Prepare (str "SELECT 1");
            op_rows_Close (mkRows (Some users_result) (Some 0%nat) 0);
            op_stmt_Query 0 [VInt64 1]]
           (mkWorld [mkStmt 7 true false] []) 0 (mkStmt 7 true false));
    reflexivity.
Defined.

(** No sequence of operations makes a statement both closed and with an open
    cursor: if no statement of the heap is so, none is afterwards, the
    statements prepared on the way included. *)
Theorem statements_stay_coherent (E : engine) (FormatFloat : Z -> gostring)
    (ops : list driver_op) (w : world) :
  Forall (fun st => coherent st = true) (heap w) ->
  Forall (fun st => coherent st = true) (heap (run_ops E FormatFloat ops w)).
Proof.
  revert w. induction ops as [|o ops IH]; intros w HF; simpl; [done|].
  apply IH. pose proof (run_op_heap E FormatFloat o w) as Hshape.
  assert (heap (run_op E FormatFloat o w) = heap w
          \/ (exists l0 st0 new,
                heap w !! l0 = Some st0 /\ evolves st0 new
                /\ heap (run_op E FormatFloat o w) = <[l0 := new]> (heap w))
          \/ exists p, heap (run_op E FormatFloat o w) = heap w ++ [mkStmt p false false])
    as [->|[(l0 & st0 & new & Hl0 & (_ & _ & Hev) & ->)|[p ->]]].
  { destruct o; try (destruct Hshape as [?|?]; by auto). by right; right. }
  - done.
  - apply Forall_insert; [done|]. apply Hev.
    by eapply (Forall_lookup_1 _ _ _ _ HF).
  - apply Forall_app. split; [done|]. by repeat constructor.
Qed.

Lemma statements_stay_coherent_witness :
  Forall (fun st => coherent st = true)
    (heap (run_ops failing_engine FormatFloat_zero
             [op_stmt_Query 0 [VInt64 1]; op_stmt_Close 0;
              op_conn_Prepare (str "SELECT 1")] one_stmt)).
Proof.
  apply (statements_stay_coherent failing_engine FormatFloat_zero
           [op_stmt_Query 0 [VInt64 1]; op_stmt_Close 0;
            op_conn_Prepare (str "SELECT 1")] one_stmt).
  repeat constructor.
Defined.

(** [Exec] can be repeated: whatever an [Exec] on an open statement returns,
    the statement is afterwards exactly as before, so a further [Exec] or
    [Query] on it is accepted. *)
Theorem stmt_Exec_leaves_statement_open (E : engine) (l : nat) (st : stmt)
    (args : list Value) (w : world) :
  heap w !! l = Some st -> is_open st = true ->
  let w1 := (stmt_Exec E l args w).1 in
  heap w1 = heap w
  /\ forall args',
       is_panic (stmt_Exec E l args' w1).2 = false
       /\ is_panic (stmt_Query E l args' w1).2 = false.
Proof.
  intros Hl Ho w1.
  assert (heap w1 = heap w) as Hh by apply stmt_Exec_keeps_heap.
  split; [done|]. intros args'. rewrite <- Hh in Hl. split.
  - by eapply stmt_Exec_open_accepted.
  - by eapply stmt_Query_open_accepted.
Qed.

Lemma stmt_Exec_leaves_statement_open_witness :
  let w1 := (stmt_Exec failing_engine 0 [VInt64 1] one_stmt).1 in
  heap w1 = heap one_stmt
  /\ forall args',
       is_panic (stmt_Exec failing_engine 0 args' w1).2 = false
       /\ is_panic (stmt_Query failing_engine 0 args' w1).2 = false.
Proof.
  apply (stmt_Exec_leaves_statement_open failing_engine 0 (mkStmt 7 false false)
           [VInt64 1] one_stmt); reflexivity.
Defined.

(** A statement just prepared can always be closed: whatever the engine
    answered, [Close] right after [Prepare] returns nil, and the two native
    calls made are the prepare and the destruction of its handle. *)
Theorem conn_Prepare_then_Close (E : engine) (cmd : gostring) (w : world) :
  let prepared := conn_Prepare E cmd w in
  let l := length (heap w) in
  prepared.2 = Ok l
  /\ (stmt_Close l prepared.1).2 = Ok tt
  /\ trace (stmt_Close l prepared.1).1
     = trace w ++ [duckdb_prepare cmd;
                   duckdb_destroy_prepare (prepare_result E (trace w) cmd).2]
  /\ (closed <$> heap (stmt_Close l prepared.1).1 !! l) = Some true.
Proof.
  unfold conn_Prepare. destruct (prepare_result E (trace w) cmd) as [rv p]. simpl.
  split; [done|].
  assert ((heap w ++ [mkStmt p false false]) !! length (heap w)
          = Some (mkStmt p false false)) as Hl.
  { rewrite lookup_app_r by lia. by rewrite Nat.sub_diag. }
  unfold stmt_Close. simpl. rewrite Hl. simpl.
  split; [done|]. split; [by rewrite <- app_assoc|].
  rewrite list_lookup_insert_eq; [done|]. rewrite length_app. simpl. lia.
Qed.

(** ** Further properties of the cursor *)

Lemma Columns_loop_spec (cols : list duckdb_column) : forall i names,
  (i + length cols <= length names)%nat ->
  Columns_loop cols i names
  = take i names ++ map column_name cols ++ drop (i + length cols) names.
Proof.
  induction cols as [|col cols IH]; intros i names Hlen; simpl.
  - by rewrite Nat.add_0_r, take_drop.
  - simpl in Hlen. rewrite IH by (rewrite length_insert; lia).
    rewrite (take_S_r _ _ (column_name col)) by (apply list_lookup_insert_eq; lia).
    rewrite take_insert_ge by lia. rewrite drop_insert_lt by lia.
    rewrite <- app_assoc. simpl.
    by replace (i + S (length cols))%nat with (S i + length cols)%nat by lia.
Qed.

(** [Columns] of an open cursor is the list of the column names in native
    column order, one per column; of a closed cursor it panics. *)
Theorem rows_Columns_names (rs : duckdbRows) :
  rows_Columns rs
  = match r rs with
    | Some res => Ok (map column_name (columns res))
    | None =>
        Panic (str "database/sql/driver: misuse of duckdb driver: Columns of closed rows")
    end.
Proof.
  unfold rows_Columns. destruct (r rs) as [res|]; [|done]. f_equal.
  rewrite Columns_loop_spec by (rewrite length_replicate; simpl; lia).
  simpl. rewrite drop_ge by (rewrite length_replicate; lia). by rewrite app_nil_r.
Qed.

(** The type lookups agree with [Next] on which tags are known: a tag [Next]
    decodes has a type name and a scan type, any other tag has neither.  The
    scan type is the Go type of the value [Next] stores, except for INTEGER,
    whose scan type is [int] while [Next] stores an [int32]. *)
Theorem scanType_and_Next
    (time_Date : Z -> Z -> Z -> Z -> Z -> Z -> Z -> Time)
    (duckdb_from_date : Z -> duckdb_date_struct)
    (duckdb_from_timestamp : Z -> duckdb_timestamp_struct)
    (res : duckdb_result) (ty : duckdb_type) (w : Z) :
  match decodeCell time_Date duckdb_from_date duckdb_from_timestamp res ty w with
  | Some v =>
      databaseTypeName ty <> []
      /\ match ty with
         | DUCKDB_TYPE_INTEGER => scanType ty = Some Type_int /\ TypeOf v = Some Type_int32
         | _ => scanType ty = TypeOf v
         end
  | None => scanType ty = None /\ databaseTypeName ty = []
  end.
Proof. destruct ty; simpl; by repeat split. Qed.

(** After [Close], whatever it returned, the cursor is closed for good: a
    further [Close], [Next] and [Columns] panic and change nothing, and the
    type lookups have no result to ask. *)
Theorem rows_closed_for_good
    (time_Date : Z -> Z -> Z -> Z -> Z -> Z -> Z -> Time)
    (duckdb_from_date : Z -> duckdb_date_struct)
    (duckdb_from_timestamp : Z -> duckdb_timestamp_struct)
    (rs : duckdbRows) (w : world) (dst : list Value) :
  let rs1 := (rows_Close rs w).1.1 in
  let w1 := (rows_Close rs w).1.2 in
  r rs1 = None
  /\ rows_Close rs1 w1
     = (rs1, w1,
        Panic (str "database/sql/driver: misuse of duckdb driver: Close of already closed rows"))
  /\ rows_Next time_Date duckdb_from_date duckdb_from_timestamp rs1 dst
     = (rs1, dst,
        Panic (str "database/sql/driver: misuse of duckdb driver: Next of closed rows"))
  /\ rows_Columns rs1
     = Panic (str "database/sql/driver: misuse of duckdb driver: Columns of closed rows").
Proof.
  assert (r (rows_Close rs w).1.1 = None) as Hr.
  { unfold rows_Close. destruct (r rs) eqn:Hrs; [|done]. by destruct (s rs). }
  simpl. split; [done|]. unfold rows_Close at 1, rows_Next, rows_Columns.
  by rewrite Hr.
Qed.

(** Closing an open cursor releases its result with one native call and
    touches at most the statement it is tied to: that statement keeps its
    handle and closed flag and loses the cursor flag, every other statement
    is as before, and a cursor of the direct path changes no statement. *)
Theorem rows_Close_frame (rs : duckdbRows) (res : duckdb_result) (w : world) :
  r rs = Some res ->
  let w1 := (rows_Close rs w).1.2 in
  (rows_Close rs w).2 = Ok tt
  /\ trace w1 = trace w ++ [duckdb_destroy_result]
  /\ length (heap w1) = length (heap w)
  /\ (forall l, s rs <> Some l -> heap w1 !! l = heap w !! l)
  /\ (forall l st, s rs = Some l -> heap w !! l = Some st ->
        heap w1 !! l = Some (mkStmt (stmt_handle st) (closed st) false)).
Proof.
  intros Hr. unfold rows_Close. rewrite Hr.
  destruct (s rs) as [l0|] eqn:Hs; simpl.
  - split; [done|]. split; [done|]. split; [by rewrite length_alter|]. split.
    + intros l Hne. apply list_lookup_alter_ne. congruence.
    + intros l st [= <-] Hl. by rewrite list_lookup_alter_eq, Hl.
  - by repeat split.
Qed.

Lemma rows_Close_frame_witness :
  let rs := mkRows (Some users_result) (Some 1%nat) 2 in
  let w := mkWorld [mkStmt 7 false true; mkStmt 8 false true] [] in
  let w1 := (rows_Close rs w).1.2 in
  (rows_Close rs w).2 = Ok tt
  /\ trace w1 = trace w ++ [duckdb_destroy_result]
  /\ length (heap w1) = length (heap w)
  /\ (forall l, s rs <> Some l -> heap w1 !! l = heap w !! l)
  /\ (forall l st, s rs = Some l -> heap w !! l = Some st ->
        heap w1 !! l = Some (mkStmt (stmt_handle st) (closed st) false)).
Proof.
  apply (rows_Close_frame (mkRows (Some users_result) (Some 1%nat) 2) users_result
           (mkWorld [mkStmt 7 false true; mkStmt 8 false true] [])).
  reflexivity.
Defined.

Section MoreRowsFacts.

Variable time_Date : Z -> Z -> Z -> Z -> Z -> Z -> Z -> Time.
Variable duckdb_from_date : Z -> duckdb_date_struct.
Variable duckdb_from_timestamp : Z -> duckdb_timestamp_struct.

Local Abbreviation Next_loop' := (Next_loop time_Date duckdb_from_date duckdb_from_timestamp).
Local Abbreviation rows_Next' := (rows_Next time_Date duckdb_from_date duckdb_from_timestamp).
Local Abbreviation after_calls' := (after_calls time_Date duckdb_from_date duckdb_from_timestamp).

(** One call leaves the cursor object as it is or moves its offset by one,
    the latter only below the row count. *)
Lemma rows_Next_step rs dst :
  (rows_Next' rs dst).1.1 = rs
  \/ exists res, r rs = Some res /\ cursor rs < int64 (row_count res)
       /\ (rows_Next' rs dst).1.1 = mkRows (r rs) (s rs) (int64 (cursor rs + 1)).
Proof.
  unfold rows_Next. destruct (r rs) as [res|] eqn:Hr; [|by left].
  destruct (cursor rs >=? int64 (row_count res)) eqn:Hge; [by left|].
  destruct (Next_loop' res (cursor rs) (columns res) 0 dst) as [dst' [[]|e|m]];
    [|by left|by left].
  right. exists res. split; [done|]. split; [lia|done].
Qed.

Lemma after_calls_bounds rs res dst :
  r rs = Some res -> 0 <= row_count res < 2 ^ 63 ->
  0 <= cursor rs <= row_count res ->
  forall n : nat,
    let after := after_calls' n rs dst in
    r after.1 = r rs /\ s after.1 = s rs
    /\ cursor rs <= cursor after.1 <= row_count res
    /\ cursor after.1 <= cursor rs + Z.of_nat n.
Proof.
  intros Hr Hrc Hc. induction n as [|n IH]; simpl; [repeat split; lia|].
  destruct (after_calls' n rs dst) as [rs1 dst1]. simpl in IH.
  destruct IH as (Hr1 & Hs1 & Hc1 & Hn1).
  destruct (rows_Next_step rs1 dst1) as [->|(res1 & Hres1 & Hlt & ->)].
  - repeat split; (done || lia).
  - rewrite Hr1, Hr in Hres1. injection Hres1 as <-.
    rewrite (int64_small (row_count res)) in Hlt by lia.
    simpl. rewrite int64_small by lia. repeat split; (done || lia).
Qed.

(** The loop of [Next] keeps the length of the row buffer and writes no slot
    outside the columns it walks. *)
Lemma Next_loop_frame res cur cols : forall i dst,
  length (Next_loop' res cur cols i dst).1 = length dst
  /\ forall j, (j < i \/ i + length cols <= j)%nat ->
       (Next_loop' res cur cols i dst).1 !! j = dst !! j.
Proof.
  induction cols as [|col cols IH]; intros i dst; [done|].
  assert (column_type col = DUCKDB_TYPE_INVALID
          \/ column_type col <> DUCKDB_TYPE_INVALID) as [Hc|Hc]
    by (destruct (column_type col); (by left) || (by right)).
  - simpl. by rewrite Hc.
  - rewrite Next_loop_cons by done.
    destruct (decodeCell _ _ _ res (column_type col) (column_data col cur)) as [v|].
    + destruct (in_array cur && bool_decide (i < length dst)%nat); [|done].
      destruct (IH (S i) (<[i := v]> dst)) as [Hlen Hj].
      rewrite Hlen, length_insert. split; [done|].
      intros j Hjr. simpl in Hjr. rewrite Hj by lia.
      apply list_lookup_insert_ne. lia.
    + destruct (IH (S i) dst) as [Hlen Hj]. split; [done|].
      intros j Hjr. simpl in Hjr. apply Hj. lia.
Qed.

(** Over columns of the decode table, a row buffer with fewer slots than
    columns makes the loop panic. *)
Lemma Next_loop_short_buffer res cur cols : forall i dst,
  Forall (fun c => decodable (column_type c) = true) cols ->
  (i <= length dst < i + length cols)%nat ->
  (Next_loop' res cur cols i dst).2 = Panic (str "index out of range").
Proof.
  induction cols as [|col cols IH]; intros i dst HF Hlen; [simpl in Hlen; lia|].
  apply Forall_cons in HF as [Hcol HF]. simpl in Hlen.
  rewrite Next_loop_cons by (intros Hty; by rewrite Hty in Hcol).
  destruct (decodeCell_decodable time_Date duckdb_from_date duckdb_from_timestamp
              res _ (column_data col cur) Hcol) as [v ->].
  destruct (in_array cur); simpl; [|done].
  case_bool_decide as Hi; [|done].
  apply IH; [done|]. rewrite length_insert. lia.
Qed.

End MoreRowsFacts.

(** The cursor stays between where it was and the row count: after any
    number of calls of [Next], on any result and with any row buffer, the
    offset has not gone back, has moved by at most one per call and is at
    most the row count, and the cursor still holds the same result and
    statement. *)
Theorem rows_Next_cursor_bounds
    (time_Date : Z -> Z -> Z -> Z -> Z -> Z -> Z -> Time)
    (duckdb_from_date : Z -> duckdb_date_struct)
    (duckdb_from_timestamp : Z -> duckdb_timestamp_struct)
    (rs : duckdbRows) (res : duckdb_result) (dst : list Value) (n : nat) :
  r rs = Some res -> 0 <= row_count res < 2 ^ 63 ->
  0 <= cursor rs <= row_count res ->
  let after := after_calls time_Date duckdb_from_date duckdb_from_timestamp n rs dst in
  r after.1 = r rs /\ s after.1 = s rs
  /\ cursor rs <= cursor after.1 <= row_count res
  /\ cursor after.1 <= cursor rs + Z.of_nat n.
Proof. intros Hr Hrc Hc. by apply after_calls_bounds. Qed.

Lemma rows_Next_cursor_bounds_witness :
  let res := mkResult 3
               [ mkColumn (str "id") DUCKDB_TYPE_INTEGER (fun k => k + 1);
                 mkColumn (str "at") (DUCKDB_TYPE_other 14) (fun _ => 0) ]
               [] 0 (fun _ => []) in
  let rs := mkRows (Some res) None 1 in
  let after := after_calls utc_Date from_date from_timestamp 5 rs [VNil] in
  r after.1 = r rs /\ s after.1 = s rs
  /\ cursor rs <= cursor after.1 <= row_count res
  /\ cursor after.1 <= cursor rs + Z.of_nat 5.
Proof.
  intros res rs.
  apply (rows_Next_cursor_bounds utc_Date from_date from_timestamp rs res [VNil] 5).
  - reflexivity.
  - vm_compute. split; congruence.
  - vm_compute. split; congruence.
Defined.

(** [Next] keeps the length of the row buffer and writes only the slots of
    the result's columns: every slot from the column count on is as it
    was, whatever the call returns. *)
Theorem rows_Next_writes_column_slots_only
    (time_Date : Z -> Z -> Z -> Z -> Z -> Z -> Z -> Time)
    (duckdb_from_date : Z -> duckdb_date_struct)
    (duckdb_from_timestamp : Z -> duckdb_timestamp_struct)
    (rs : duckdbRows) (res : duckdb_result) (dst : list Value) :
  r rs = Some res ->
  let dst' := (rows_Next time_Date duckdb_from_date duckdb_from_timestamp rs dst).1.2 in
  length dst' = length dst
  /\ forall j, (length (columns res) <= j)%nat -> dst' !! j = dst !! j.
Proof.
  intros Hr. unfold rows_Next. rewrite Hr.
  destruct (cursor rs >=? int64 (row_count res)); [done|].
  pose proof (Next_loop_frame time_Date duckdb_from_date duckdb_from_timestamp
                res (cursor rs) (columns res) 0 dst) as [Hlen Hj].
  destruct (Next_loop _ _ _ _ _ _ _ _) as [dst1 [[]|e|m]]; simpl in *;
    (split; [done|]; intros j Hjr; apply Hj; lia).
Qed.

Lemma rows_Next_writes_column_slots_only_witness :
  let rs := mkRows (Some users_result) None 0 in
  let dst := [VNil; VNil; VNil; VInt64 42] in
  let dst' := (rows_Next utc_Date from_date from_timestamp rs dst).1.2 in
  length dst' = length dst
  /\ forall j, (length (columns users_result) <= j)%nat -> dst' !! j = dst !! j.
Proof.
  apply (rows_Next_writes_column_slots_only utc_Date from_date from_timestamp
           (mkRows (Some users_result) None 0) users_result
           [VNil; VNil; VNil; VInt64 42]).
  reflexivity.
Defined.

(** With a row buffer shorter than the number of columns, all of them of the
    decode table, a call of [Next] below the row count panics with an index
    out of range and does not move the cursor. *)
Theorem rows_Next_short_buffer_panics
    (time_Date : Z -> Z -> Z -> Z -> Z -> Z -> Z -> Time)
    (duckdb_from_date : Z -> duckdb_date_struct)
    (duckdb_from_timestamp : Z -> duckdb_timestamp_struct)
    (rs : duckdbRows) (res : duckdb_result) (dst : list Value) :
  r rs = Some res ->
  cursor rs < int64 (row_count res) ->
  Forall (fun c => decodable (column_type c) = true) (columns res) ->
  (length dst < length (columns res))%nat ->
  let call := rows_Next time_Date duckdb_from_date duckdb_from_timestamp rs dst in
  call.2 = Panic (str "index out of range") /\ call.1.1 = rs.
Proof.
  intros Hr Hc HF Hlen. unfold rows_Next. rewrite Hr.
  destruct (cursor rs >=? int64 (row_count res)) eqn:Hge; [lia|].
  pose proof (Next_loop_short_buffer time_Date duckdb_from_date duckdb_from_timestamp
                res (cursor rs) (columns res) 0 dst HF) as Hp.
  destruct (Next_loop _ _ _ _ _ _ _ _) as [dst1 o]. simpl in Hp.
  rewrite Hp by lia. done.
Qed.

Lemma rows_Next_short_buffer_panics_witness :
  let call := rows_Next utc_Date from_date from_timestamp
                (mkRows (Some users_result) None 0) [VNil; VNil] in
  call.2 = Panic (str "index out of range")
  /\ call.1.1 = mkRows (Some users_result) None 0.
Proof.
  apply (rows_Next_short_buffer_panics utc_Date from_date from_timestamp
           (mkRows (Some users_result) None 0) users_result [VNil; VNil]).
  - reflexivity.
  - reflexivity.
  - repeat constructor.
  - simpl. lia.
Defined.

(** The cursor of a direct query stands alone: it starts at offset 0 and is
    tied to no statement, and the query and the closing of its cursor leave
    every statement as it was; the native calls of the two are the query
    with the interpolated text and the release of the result. *)
Theorem conn_Query_cursor_stands_alone (E : engine) (FormatFloat : Z -> gostring)
    (query : gostring) (args : list Value) (w w1 : world) (rs : duckdbRows) :
  conn_Query E FormatFloat query args w = (w1, Ok rs) ->
  s rs = None /\ cursor rs = 0 /\ heap w1 = heap w
  /\ (rows_Close rs w1).2 = Ok tt
  /\ heap (rows_Close rs w1).1.2 = heap w
  /\ exists text,
       interpolateParams FormatFloat query args = Ok text
       /\ trace (rows_Close rs w1).1.2
          = trace w ++ [duckdb_query text; duckdb_destroy_result].
Proof.
  unfold conn_Query, conn_query.
  destruct (interpolateParams FormatFloat query args) as [text|e|m]; [|done|done].
  unfold conn_exec. destruct (query_result E (trace w) text) as [[] res]; [|done].
  intros [= <- <-]. simpl. repeat split.
  exists text. split; [done|]. by rewrite <- app_assoc.
Qed.

Lemma conn_Query_cursor_stands_alone_witness :
  let q := conn_Query good_engine FormatFloat_zero (str "SELECT * FROM users WHERE age > ?")
             [VInt64 30] one_stmt in
  heap q.1 = heap one_stmt
  /\ heap (rows_Close (mkRows (Some users_result) None 0) q.1).1.2 = heap one_stmt.
Proof.
  intros q.
  destruct (conn_Query_cursor_stands_alone good_engine FormatFloat_zero
              (str "SELECT * FROM users WHERE age > ?") [VInt64 30] one_stmt q.1
              (mkRows (Some users_result) None 0) eq_refl)
    as (_ & _ & Hh & _ & Hh' & _).
  by split.
Defined.

(** ** Connections, transactions and opening a database *)

(** [conn.Close] works once: on an open connection it disconnects, then
    closes the database, and clears the database pointer; any further
    [Close] returns the already-closed error and makes no native call. *)
Theorem conn_Close_once (c : conn) :
  let first := conn_Close c in
  match db c with
  | Some d =>
      first = (mkConn None (con c), [duckdb_disconnect (con c); duckdb_close d], Ok tt)
  | None => first = (c, [], Err (errorNew (str "Duckdb database already closed")))
  end
  /\ conn_Close first.1.1
     = (first.1.1, [], Err (errorNew (str "Duckdb database already closed"))).
Proof.
  intros first. subst first. unfold conn_Close.
  destruct (db c) as [d|] eqn:Hd; simpl; rewrite ?Hd; by split.
Qed.

(** A transaction handle is spent by its first [Commit] or [Rollback],
    whether or not the engine accepted the statement: afterwards both
    [Commit] and [Rollback] panic on the nil connection and submit
    nothing. *)
Theorem tx_handle_is_single_use (E : engine) (cmd : gostring) (t : duckdbTx) (w : world) :
  let t1 := (tx_finish E cmd t w).1.1 in
  let w1 := (tx_finish E cmd t w).1.2 in
  tx_c t1 = None
  /\ tx_Commit E t1 w1
     = (t1, w1, Panic (str "invalid memory address or nil pointer dereference"))
  /\ tx_Rollback E t1 w1
     = (t1, w1, Panic (str "invalid memory address or nil pointer dereference")).
Proof.
  intros t1 w1.
  assert (tx_c t1 = None) as Hc.
  { subst t1. unfold tx_finish. destruct (tx_c t) eqn:Ht; [|done].
    unfold conn_exec. by destruct (query_result E (trace w) cmd) as [[] res]. }
  split; [done|]. unfold tx_Commit, tx_Rollback, tx_finish. by rewrite Hc.
Qed.

Lemma tx_finish_effect (E : engine) (cmd : gostring) (t : duckdbTx) (c : conn) (w : world) :
  tx_c t = Some c ->
  trace (tx_finish E cmd t w).1.2 = trace w ++ [duckdb_query cmd]
  /\ heap (tx_finish E cmd t w).1.2 = heap w
  /\ (tx_finish E cmd t w).2
     = match query_result E (trace w) cmd with
       | (DuckDBSuccess, _) => Ok tt
       | (DuckDBError, res) => Err (errorNew (result_error res))
       end.
Proof.
  intros Ht. unfold tx_finish, conn_exec. rewrite Ht.
  by destruct (query_result E (trace w) cmd) as [[] res].
Qed.

Lemma conn_Begin_Ok_inv (E : engine) (c : conn) (w w1 : world) (t : duckdbTx) :
  conn_Begin E c w = (w1, Ok t) ->
  tx_c t = Some c
  /\ trace w1 = trace w ++ [duckdb_query (str "BEGIN TRANSACTION")]
  /\ heap w1 = heap w.
Proof.
  unfold conn_Begin, conn_exec.
  destruct (query_result E (trace w) (str "BEGIN TRANSACTION")) as [[] res]; [|done].
  by intros [= <- <-].
Qed.

(** A transaction that began submits exactly two statements up to its
    [Commit], BEGIN TRANSACTION and COMMIT TRANSACTION, and up to its
    [Rollback], BEGIN TRANSACTION and ROLLBACK; no statement of the heap
    changes, and an error of the engine at the end is returned with the
    engine's text. *)
Theorem transaction_statements (E : engine) (c : conn) (w w1 : world) (t : duckdbTx) :
  conn_Begin E c w = (w1, Ok t) ->
  tx_c t = Some c
  /\ trace (tx_Commit E t w1).1.2
     = trace w ++ [duckdb_query (str "BEGIN TRANSACTION");
                   duckdb_query (str "COMMIT TRANSACTION")]
  /\ trace (tx_Rollback E t w1).1.2
     = trace w ++ [duckdb_query (str "BEGIN TRANSACTION"); duckdb_query (str "ROLLBACK")]
  /\ heap (tx_Commit E t w1).1.2 = heap w
  /\ heap (tx_Rollback E t w1).1.2 = heap w
  /\ (tx_Commit E t w1).2
     = match query_result E (trace w1) (str "COMMIT TRANSACTION") with
       | (DuckDBSuccess, _) => Ok tt
       | (DuckDBError, res) => Err (errorNew (result_error res))
       end.
Proof.
  intros Hb. destruct (conn_Begin_Ok_inv E c w w1 t Hb) as (Ht & Htr & Hh).
  destruct (tx_finish_effect E (str "COMMIT TRANSACTION") t c w1 Ht) as (Hc1 & Hc2 & Hc3).
  destruct (tx_finish_effect E (str "ROLLBACK") t c w1 Ht) as (Hr1 & Hr2 & _).
  unfold tx_Commit, tx_Rollback.
  rewrite Hc1, Hc2, Hc3, Hr1, Hr2, Htr, Hh, <- !app_assoc. by repeat split.
Qed.

Lemma transaction_statements_witness :
  let b := conn_Begin good_engine (mkConn (Some 1) 2) one_stmt in
  trace (tx_Commit good_engine (mkTx (Some (mkConn (Some 1) 2))) b.1).1.2
  = [duckdb_query (str "BEGIN TRANSACTION"); duckdb_query (str "COMMIT TRANSACTION")]
  /\ heap (tx_Rollback good_engine (mkTx (Some (mkConn (Some 1) 2))) b.1).1.2
     = heap one_stmt.
Proof.
  intros b.
  destruct (transaction_statements good_engine (mkConn (Some 1) 2) one_stmt b.1
              (mkTx (Some (mkConn (Some 1) 2))) eq_refl)
    as (_ & Hc & _ & _ & Hr & _).
  by split.
Defined.

Lemma applyParams_config_calls (get : gostring -> gostring) (tr : list open_call) :
  applyParams get tr = tr ++ config_calls get.
Proof.
  unfold applyParams, config_calls, setConfig. cbn [omap list_omap].
  destruct (get (str "access_mode")) as [|a1 m1];
    destruct (get (str "threads")) as [|a2 m2];
    destruct (get (str "max_memory")) as [|a3 m3];
    destruct (get (str "default_order")) as [|a4 m4];
    cbv beta iota; rewrite <- ?app_assoc, ?app_nil_r; reflexivity.
Qed.

Section OpenFacts.

Variable OE : open_engine.
Variable ParseQuery : gostring -> error + (gostring -> gostring).

(** The calls of [Open] once the configuration exists, the path and the
    [duckdb_set_config] calls being known. *)
Lemma Open_tail (dsn path : gostring) (sets : list open_call) :
  create_config_state OE = DuckDBSuccess ->
  (if 1 <=? IndexByte dsn QMARK then
     exists get, ParseQuery (drop (Z.to_nat (IndexByte dsn QMARK + 1)) dsn) = inr get
                 /\ sets = config_calls get
                 /\ path = take (Z.to_nat (IndexByte dsn QMARK)) dsn
   else sets = [] /\ path = dsn) ->
  exists rest,
    (Open OE ParseQuery dsn).1
    = duckdb_create_config :: sets ++ duckdb_open_ext path :: rest ++ [duckdb_destroy_config]
    /\ (rest = [] \/ exists d, rest = [duckdb_connect d])
    /\ ((Open OE ParseQuery dsn).2 = Err errError
        \/ exists d c, rest = [duckdb_connect d]
             /\ (Open OE ParseQuery dsn).2 = Ok (mkConn (Some d) c)).
Proof.
  intros Hcc Hp. unfold Open. rewrite Hcc.
  assert ((if 1 <=? IndexByte dsn QMARK then
             match ParseQuery (drop (Z.to_nat (IndexByte dsn QMARK + 1)) dsn) with
             | inl err => inr err
             | inr get => inl (applyParams get [duckdb_create_config],
                               take (Z.to_nat (IndexByte dsn QMARK)) dsn)
             end
           else inl ([duckdb_create_config], dsn))
          = (inl (duckdb_create_config :: sets, path)
             : list open_call * gostring + error)) as ->.
  { destruct (1 <=? IndexByte dsn QMARK).
    - destruct Hp as (get & -> & -> & ->). by rewrite applyParams_config_calls.
    - by destruct Hp as [-> ->]. }
  destruct (open_ext_result OE (duckdb_create_config :: sets) path) as [[] d].
  - destruct (connect_result OE _ d) as [[] c]; simpl.
    + exists [duckdb_connect d]. rewrite <- !app_assoc. simpl.
      split; [done|]. split; [by eauto|]. right. by exists d, c.
    + exists [duckdb_connect d]. rewrite <- !app_assoc. simpl.
      split; [done|]. split; [by eauto|]. by left.
  - exists []. simpl. rewrite <- !app_assoc. simpl.
    split; [done|]. split; [by left|]. by left.
Qed.

End OpenFacts.

(** A data source name with no question mark, or with its first question
    mark at the very start, is taken whole as the path, and the query parser
    plays no part.  If the configuration cannot be created, nothing else is
    called.  Otherwise no option is set and the database is opened under the
    name as given; the connection is made exactly when the open succeeded,
    the configuration is destroyed last, and the result is the connection
    when both succeeded and the could-not-open error otherwise. *)
Theorem Open_without_parameters (OE : open_engine)
    (ParseQuery : gostring -> error + (gostring -> gostring)) (dsn : gostring) :
  IndexByte dsn QMARK < 1 ->
  Open OE ParseQuery dsn
  = match create_config_state OE with
    | DuckDBError => ([duckdb_create_config], Err errError)
    | DuckDBSuccess =>
        match open_ext_result OE [duckdb_create_config] dsn with
        | (DuckDBError, _) =>
            ([duckdb_create_config; duckdb_open_ext dsn; duckdb_destroy_config],
             Err errError)
        | (DuckDBSuccess, d) =>
            match connect_result OE [duckdb_create_config; duckdb_open_ext dsn] d with
            | (DuckDBError, _) =>
                ([duckdb_create_config; duckdb_open_ext dsn; duckdb_connect d;
                  duckdb_destroy_config], Err errError)
            | (DuckDBSuccess, c) =>
                ([duckdb_create_config; duckdb_open_ext dsn; duckdb_connect d;
                  duckdb_destroy_config], Ok (mkConn (Some d) c))
            end
        end
    end.
Proof.
  intros Hpos. unfold Open.
  destruct (create_config_state OE); [|done].
  destruct (1 <=? IndexByte dsn QMARK) eqn:Hle; [lia|].
  destruct (open_ext_result OE [duckdb_create_config] dsn) as [[] d]; [|done].
  by destruct (connect_result OE _ d) as [[] c].
Qed.

Lemma Open_without_parameters_witness :
  Open open_ok ParseQuery_example (str "?access_mode=READ_ONLY")
  = ([duckdb_create_config; duckdb_open_ext (str "?access_mode=READ_ONLY");
      duckdb_connect 1; duckdb_destroy_config], Ok (mkConn (Some 1) 2)).
Proof.
  apply (Open_without_parameters open_ok ParseQuery_example
           (str "?access_mode=READ_ONLY")).
  reflexivity.
Defined.

(** With the first question mark after at least one byte and a query that
    parses, the path is what precedes the question mark, and the options set
    are, in this order, access_mode, threads, max_memory and default_order,
    each only when the query gives it a value; all are set before the
    database is opened, and no other key of the query is passed on. *)
Theorem Open_with_parameters (OE : open_engine)
    (ParseQuery : gostring -> error + (gostring -> gostring))
    (dsn : gostring) (get : gostring -> gostring) :
  create_config_state OE = DuckDBSuccess ->
  1 <= IndexByte dsn QMARK ->
  ParseQuery (drop (Z.to_nat (IndexByte dsn QMARK + 1)) dsn) = inr get ->
  exists rest,
    (Open OE ParseQuery dsn).1
    = duckdb_create_config :: config_calls get
      ++ duckdb_open_ext (take (Z.to_nat (IndexByte dsn QMARK)) dsn)
      :: rest ++ [duckdb_destroy_config]
    /\ (rest = [] \/ exists d, rest = [duckdb_connect d])
    /\ ((Open OE ParseQuery dsn).2 = Err errError
        \/ exists d c, rest = [duckdb_connect d]
             /\ (Open OE ParseQuery dsn).2 = Ok (mkConn (Some d) c)).
Proof.
  intros Hcc Hpos Hparse.
  apply (Open_tail OE ParseQuery dsn _ (config_calls get) Hcc).
  destruct (1 <=? IndexByte dsn QMARK) eqn:Hle; [|lia].
  by exists get.
Qed.

Lemma Open_with_parameters_witness :
  (Open open_ok ParseQuery_example (str "duckdb.db?access_mode=READ_ONLY&threads=4&foo=bar")).1
  = [duckdb_create_config;
     duckdb_set_config (str "access_mode") (str "READ_ONLY");
     duckdb_set_config (str "threads") (str "4");
     duckdb_open_ext (str "duckdb.db"); duckdb_connect 1; duckdb_destroy_config].
Proof.
  destruct (Open_with_parameters open_ok ParseQuery_example
              (str "duckdb.db?access_mode=READ_ONLY&threads=4&foo=bar")
              (fun key =>
                 if bytes_eqb key (str "access_mode") then str "READ_ONLY"
                 else if bytes_eqb key (str "threads") then str "4"
                 else if bytes_eqb key (str "foo") then str "bar"
                 else [])
              eq_refl) as (rest & Htr & _ & _).
  - vm_compute. congruence.
  - reflexivity.
  - reflexivity.
Defined.

(** When the query of the data source name does not parse, [Open] returns
    the parser's error; the configuration is created and destroyed and the
    database is never opened. *)
Theorem Open_query_parse_error (OE : open_engine)
    (ParseQuery : gostring -> error + (gostring -> gostring))
    (dsn : gostring) (err : error) :
  create_config_state OE = DuckDBSuccess ->
  1 <= IndexByte dsn QMARK ->
  ParseQuery (drop (Z.to_nat (IndexByte dsn QMARK + 1)) dsn) = inl err ->
  Open OE ParseQuery dsn = ([duckdb_create_config; duckdb_destroy_config], Err err).
Proof.
  intros Hcc Hpos Hparse. unfold Open. rewrite Hcc.
  destruct (1 <=? IndexByte dsn QMARK) eqn:Hle; [|lia]. by rewrite Hparse.
Qed.

Lemma Open_query_parse_error_witness :
  Open open_ok (fun _ => inl (errorNew (str "invalid semicolon separator in query")))
    (str "duckdb.db?a;b")
  = ([duckdb_create_config; duckdb_destroy_config],
     Err (errorNew (str "invalid semicolon separator in query"))).
Proof.
  apply (Open_query_parse_error open_ok
           (fun _ => inl (errorNew (str "invalid semicolon separator in query")))
           (str "duckdb.db?a;b") (errorNew (str "invalid semicolon separator in query"))).
  - reflexivity.
  - vm_compute. congruence.
  - reflexivity.
Defined.
